(** * Formatting validator: a shallow embedding of [scripts/validate_formatting.py]

    The script walks four root directories, collects C++ sources by suffix and
    runs six textual checks over them; its exit status is derived from the
    number of reported issues.  Python [str] values are sequences of Unicode
    code points, the file system is a tree of named entries, and a text file is
    what iterating or reading it gives to the program: the lines it yields and,
    possibly, the exception that interrupts the reading. *)

From Stdlib Require Import String Ascii.
From Stdlib Require Import List NArith PeanoNat Bool Lia.
From Stdlib Require Import Sorting.Sorted Sorting.Permutation.
Import ListNotations.

Set Implicit Arguments.

(** ** Text *)

(** A Python character is a code point, a [str] a list of them. *)
Definition char := N.
Definition str := list char.

(** String literals of the script, all of them ASCII. *)
Definition lit (x : string) : str := map N_of_ascii (list_ascii_of_string x).

Definition TAB : char := 9%N.
Definition LF : char := 10%N.
Definition CR : char := 13%N.
Definition SPACE : char := 32%N.
Definition UNDERSCORE : char := 95%N.

Definition char_in (set : str) (c : char) : bool := existsb (N.eqb c) set.

(** [==] on [str]. *)
Fixpoint str_eqb (a b : str) : bool :=
  match a, b with
  | [], [] => true
  | x :: a', y :: b' => N.eqb x y && str_eqb a' b'
  | _, _ => false
  end.

(** [<=] on [str]: code point by code point, a proper prefix first. *)
Fixpoint str_leb (a b : str) : bool :=
  match a, b with
  | [], _ => true
  | _ :: _, [] => false
  | x :: a', y :: b' => N.ltb x y || (N.eqb x y && str_leb a' b')
  end.

(** The characters [str.strip], [str.rstrip], [str.lstrip] without argument
    remove, which are also the class [\s] of [re] on [str] patterns. *)
Definition is_space (c : char) : bool :=
  ((9 <=? c) && (c <=? 13) || (28 <=? c) && (c <=? 32)
   || (c =? 133) || (c =? 160) || (c =? 5760)
   || (8192 <=? c) && (c <=? 8202)
   || (c =? 8232) || (c =? 8233) || (c =? 8239) || (c =? 8287)
   || (c =? 12288))%N.

Definition is_ascii_alnum (c : char) : bool :=
  ((48 <=? c) && (c <=? 57) || (65 <=? c) && (c <=? 90)
   || (97 <=? c) && (c <=? 122))%N.

Fixpoint drop_while (p : char -> bool) (s : str) : str :=
  match s with
  | [] => []
  | c :: r => if p c then drop_while p r else s
  end.

Fixpoint take_while (p : char -> bool) (s : str) : str :=
  match s with
  | [] => []
  | c :: r => if p c then c :: take_while p r else []
  end.

(** [s.lstrip(chars)], [s.rstrip(chars)] and the argument-free forms. *)
Definition lstrip_chars (chars s : str) : str := drop_while (char_in chars) s.
Definition rstrip_chars (chars s : str) : str :=
  rev (drop_while (char_in chars) (rev s)).
Definition lstrip (s : str) : str := drop_while is_space s.
Definition rstrip (s : str) : str := rev (drop_while is_space (rev s)).
Definition strip (s : str) : str := rstrip (lstrip s).

(** [s.startswith(prefix)] as the remainder after the prefix, if any. *)
Fixpoint strip_prefix (prefix s : str) : option str :=
  match prefix, s with
  | [], _ => Some s
  | _ :: _, [] => None
  | x :: prefix', y :: s' =>
      if N.eqb x y then strip_prefix prefix' s' else None
  end.

Definition startswith (prefix s : str) : bool :=
  match strip_prefix prefix s with Some _ => true | None => false end.

Definition endswith (suffix s : str) : bool := startswith (rev suffix) (rev s).

(** A test that succeeds at some position of [s], the end included:
    the shape of [sub in s] and of [re.search]. *)
Fixpoint somewhere (test : str -> bool) (s : str) : bool :=
  test s || match s with [] => false | _ :: r => somewhere test r end.

(** [sub in s]. *)
Definition contains (sub s : str) : bool := somewhere (startswith sub) s.

(** [enumerate(xs, start)]. *)
Fixpoint enumerate (A : Type) (start : nat) (xs : list A) : list (nat * A) :=
  match xs with
  | [] => []
  | x :: r => (start, x) :: enumerate (S start) r
  end.

(** [sep.join(parts)]. *)
Fixpoint join (sep : char) (parts : list str) : str :=
  match parts with
  | [] => []
  | [x] => x
  | x :: r => x ++ sep :: join sep r
  end.

(** [s.split(sep)] for a one-character separator. *)
Fixpoint split_on (sep : char) (s : str) : list str :=
  match s with
  | [] => [[]]
  | c :: r =>
      if N.eqb c sep then [] :: split_on sep r
      else match split_on sep r with
           | [] => [[c]]
           | w :: ws => (c :: w) :: ws
           end
  end.

(** [s.rfind(c)]: the last index of [c], [None] for Python's [-1]. *)
Fixpoint rfind (c : char) (s : str) : option nat :=
  match s with
  | [] => None
  | x :: r =>
      match rfind c r with
      | Some i => Some (S i)
      | None => if N.eqb x c then Some 0 else None
      end
  end.

(** [sorted(xs)] on strings.  The order is total and antisymmetric, so the
    result does not depend on the algorithm; insertion keeps it short. *)
Fixpoint insert_sorted (x : str) (l : list str) : list str :=
  match l with
  | [] => [x]
  | y :: r => if str_leb x y then x :: l else y :: insert_sorted x r
  end.

Definition sorted (l : list str) : list str := fold_right insert_sorted [] l.

(** ** Files and the file system *)

(** What [except Exception as e] can catch while a file is opened or read. *)
Inductive exn : Type :=
| IsADirectoryError (filename : str)
| FileNotFoundError (filename : str)
| ReadFailure (text : str).

(** A text file as the script observes it.  [for line in f] yields the lines
    of [delivered] in order and then either stops or raises [failure];
    [f.read()] and [f.readlines()] need the whole file, so they raise
    [failure] when there is one and otherwise return the concatenation of
    [delivered], resp. [delivered] itself.  A file that cannot be opened
    delivers nothing. *)
Record file : Type := { delivered : list str; failure : option exn }.

Definition readable (lines : list str) : file :=
  {| delivered := lines; failure := None |}.
Definition failing (lines : list str) (e : exn) : file :=
  {| delivered := lines; failure := Some e |}.

(** Directory entries in the order [os.scandir] lists them.  The tree holds
    files and directories; symbolic links are not part of it. *)
#[warnings="-register-all"]
Inductive node : Type :=
| File (f : file)
| Dir (entries : list (str * node)).

(** The working directory the script is started in. *)
Definition tree := list (str * node).

Fixpoint entry (name : str) (es : list (str * node)) : option node :=
  match es with
  | [] => None
  | (n, x) :: r => if str_eqb n name then Some x else entry name r
  end.

Fixpoint walk (es : list (str * node)) (comps : list str) : option node :=
  match comps with
  | [] => None
  | name :: rest =>
      match rest with
      | [] => entry name es
      | _ :: _ =>
          match entry name es with
          | Some (Dir es') => walk es' rest
          | _ => None
          end
      end
  end.

Definition SLASH : char := 47%N.
Definition DOT : char := 46%N.

(** [open(file_path, 'r', encoding='utf-8')] together with the reading that
    follows it. *)
Definition open_ (cwd : tree) (file_path : str) : file :=
  match walk cwd (split_on SLASH file_path) with
  | Some (File f) => f
  | Some (Dir _) => failing [] (IsADirectoryError file_path)
  | None => failing [] (FileNotFoundError file_path)
  end.

(** [pathlib] paths are sequences of components. *)
Definition path := list str.

(** [str(p)]. *)
Definition path_str (p : path) : str := join SLASH p.

(** [p.name] and [p.suffix]: the part of the last component from its last
    dot on, when that dot is neither its first nor its last character. *)
Definition name_suffix (name : str) : str :=
  match rfind DOT name with
  | Some i => if (0 <? i) && (i <? length name - 1) then skipn i name else []
  | None => []
  end.

Definition suffix (p : path) : str := name_suffix (last p []).

(** [p.rglob('*')]: every entry below [p], the entries of a directory before
    those of its subdirectories.  Nothing below a plain file. *)
Fixpoint rglob (self : path) (n : node) : list path :=
  match n with
  | File _ => []
  | Dir es =>
      map (fun e => self ++ [fst e]) es ++
      (fix below (l : list (str * node)) : list path :=
         match l with
         | [] => []
         | (nm, child) :: l' => rglob (self ++ [nm]) child ++ below l'
         end) es
  end.

(** ** Discovery *)

Definition roots : list str :=
  [lit "src"; lit "include"; lit "examples"; lit "tests"].

Definition cpp_extensions : list str :=
  [lit ".cpp"; lit ".hpp"; lit ".h"; lit ".cxx"; lit ".cc"].

Definition has_cpp_suffix (p : path) : bool :=
  existsb (str_eqb (suffix p)) cpp_extensions.

(** The loop body of [find_cpp_files] for one root. *)
Definition found_under (cwd : tree) (root : str) : list str :=
  match entry root cwd with
  | Some n => map path_str (filter has_cpp_suffix (rglob [root] n))
  | None => []
  end.

Definition find_cpp_files (cwd : tree) : list str :=
  sorted (flat_map (found_under cwd) roots).

(** ** Issues *)

(** One constructor per f-string of the script; the fields are its holes:
    - [f"{file_path}:{line_num}: Line too long ({len(line_content)} > {max_length})"]
    - [f"{file_path}:{line_num}: Trailing whitespace"]
    - [f"{file_path}: Contains tab characters"]
    - [f"{file_path}: Missing or incomplete include guards"]
    - [f"{file_path}:{line_num}: Missing namespace closing comment"]
    - [f"{file_path}:{line_num}: Inconsistent indentation (not multiple of 4)"]
    - [f"{file_path}: Error reading file - {e}"] *)
Inductive issue : Type :=
| LineTooLong (file_path : str) (line_num len max_length : nat)
| TrailingWhitespace (file_path : str) (line_num : nat)
| ContainsTabs (file_path : str)
| MissingIncludeGuards (file_path : str)
| MissingNamespaceComment (file_path : str) (line_num : nat)
| InconsistentIndentation (file_path : str) (line_num : nat)
| ErrorReadingFile (file_path : str) (e : exn).

(** What the [except] clause appends once the reading has raised. *)
Definition on_failure (file_path : str) (failed : option exn) : list issue :=
  match failed with
  | Some e => [ErrorReadingFile file_path e]
  | None => []
  end.

(** ** The checks *)

Section Checks.

(** [str.isalnum] of a code point above ASCII, the interpreter's Unicode
    table, which the repository does not contain. *)
Variable unicode_alnum : char -> bool.

(** The class [\w] of [re] on [str] patterns. *)
Definition is_word (c : char) : bool :=
  if (c <? 128)%N then is_ascii_alnum c || (c =? UNDERSCORE)%N
  else unicode_alnum c.

(** [\s+(\w+)] once one [\s] has been consumed: greedy on the white space,
    backing off one character at a time; the result is group 1. *)
Fixpoint spaces_then_word (s : str) : option str :=
  match s with
  | [] => None
  | c :: r =>
      match (if is_space c then spaces_then_word r else None) with
      | Some g => Some g
      | None => if is_word c then Some (take_while is_word s) else None
      end
  end.

(** [re.match(keyword + r'\s+(\w+)', s)], for a literal keyword. *)
Definition re_match_keyword (keyword s : str) : option str :=
  match strip_prefix keyword s with
  | Some (c :: r) => if is_space c then spaces_then_word r else None
  | _ => None
  end.

(** [re.search(keyword + r'\s+(\w+)', s)] as a truth value. *)
Definition re_search_keyword (keyword s : str) : bool :=
  somewhere
    (fun t => match re_match_keyword keyword t with
              | Some _ => true
              | None => false
              end) s.

(** [re.match(prefix + r'\w+', s)] as a truth value, for a literal prefix. *)
Definition re_match_prefix_word (prefix s : str) : bool :=
  match strip_prefix prefix s with
  | Some (c :: _) => is_word c
  | _ => false
  end.

(** [re.match(r'.*[^\w\s].*', s)] as a truth value: the dot stops at a line
    feed, so the character must stand before the first one. *)
Definition re_match_alignment (s : str) : bool :=
  existsb (fun c => negb (is_word c) && negb (is_space c))
          (take_while (fun c => negb (c =? LF)%N) s).

Fixpoint line_length_loop (file_path : str) (max_length : nat)
    (numbered : list (nat * str)) : list issue :=
  match numbered with
  | [] => []
  | (line_num, line) :: rest =>
      let line_content := rstrip_chars [LF; CR] line in
      (if max_length <? length line_content
       then [LineTooLong file_path line_num (length line_content) max_length]
       else [])
      ++ line_length_loop file_path max_length rest
  end.

Definition check_line_length_on (file_path : str) (f : file)
    (max_length : nat) : list issue :=
  line_length_loop file_path max_length (enumerate 1 (delivered f))
  ++ on_failure file_path (failure f).

Fixpoint trailing_whitespace_loop (file_path : str)
    (numbered : list (nat * str)) : list issue :=
  match numbered with
  | [] => []
  | (line_num, line) :: rest =>
      (if negb (str_eqb (rstrip_chars [LF; CR] line) (rstrip line))
       then [TrailingWhitespace file_path line_num]
       else [])
      ++ trailing_whitespace_loop file_path rest
  end.

Definition check_trailing_whitespace_on (file_path : str) (f : file)
    : list issue :=
  trailing_whitespace_loop file_path (enumerate 1 (delivered f))
  ++ on_failure file_path (failure f).

Definition check_tabs_on (file_path : str) (f : file) : list issue :=
  match failure f with
  | Some e => [ErrorReadingFile file_path e]
  | None =>
      let content := concat (delivered f) in
      if contains [TAB] content then [ContainsTabs file_path] else []
  end.

Definition is_header (file_path : str) : bool :=
  endswith (lit ".hpp") file_path || endswith (lit ".h") file_path.

Definition check_include_guards_on (file_path : str) (f : file)
    : list issue :=
  if negb (is_header file_path) then []
  else
    match failure f with
    | Some e => [ErrorReadingFile file_path e]
    | None =>
        let content := concat (delivered f) in
        if contains (lit "#pragma once") content then []
        else
          let ifndef_match := re_search_keyword (lit "#ifndef") content in
          let define_match := re_search_keyword (lit "#define") content in
          let endif_match := contains (lit "#endif") content in
          if negb (ifndef_match && define_match && endif_match)
          then [MissingIncludeGuards file_path]
          else []
    end.

(** The stack of open namespaces, its top first. *)
Fixpoint namespace_loop (file_path : str) (numbered : list (nat * str))
    (namespace_stack : list (str * nat)) : list issue :=
  match numbered with
  | [] => []
  | (line_num, line) :: rest =>
      let stripped := strip line in
      let namespace_stack :=
        match re_match_keyword (lit "namespace") stripped with
        | Some name => (name, line_num) :: namespace_stack
        | None => namespace_stack
        end in
      if str_eqb stripped (lit "}") || startswith (lit "} ") stripped then
        match namespace_stack with
        | _ :: popped =>
            (if negb (re_match_prefix_word (lit "}  // namespace ") stripped)
                && negb (re_match_prefix_word (lit "} // namespace ") stripped)
             then if 10 <? line_num
                  then [MissingNamespaceComment file_path line_num]
                  else []
             else [])
            ++ namespace_loop file_path rest popped
        | [] => namespace_loop file_path rest namespace_stack
        end
      else namespace_loop file_path rest namespace_stack
  end.

Definition check_namespace_comments_on (file_path : str) (f : file)
    : list issue :=
  match failure f with
  | Some e => [ErrorReadingFile file_path e]
  | None => namespace_loop file_path (enumerate 1 (delivered f)) []
  end.

(** [len(line) - len(line.lstrip(' '))]. *)
Definition leading_space (line : str) : nat :=
  length line - length (lstrip_chars [SPACE] line).

(** The loop of [check_indentation]: [failed] is what the iterator raises
    when the delivered lines are used up; [break] leaves the file unread. *)
Fixpoint indentation_loop (file_path : str) (numbered : list (nat * str))
    (failed : option exn) : list issue :=
  match numbered with
  | [] => on_failure file_path failed
  | (line_num, line) :: rest =>
      if str_eqb (strip line) [] then indentation_loop file_path rest failed
      else if (0 <? leading_space line)
              && negb (leading_space line mod 4 =? 0)
      then if negb (re_match_alignment (lstrip line))
           then [InconsistentIndentation file_path line_num]
           else indentation_loop file_path rest failed
      else indentation_loop file_path rest failed
  end.

Definition check_indentation_on (file_path : str) (f : file) : list issue :=
  indentation_loop file_path (enumerate 1 (delivered f)) (failure f).

(** ** The driver *)

(** The checks as [main] calls them on a path of the working directory. *)
Definition check_line_length (cwd : tree) (file_path : str)
    (max_length : nat) : list issue :=
  check_line_length_on file_path (open_ cwd file_path) max_length.
Definition check_trailing_whitespace (cwd : tree) (file_path : str) :=
  check_trailing_whitespace_on file_path (open_ cwd file_path).
Definition check_tabs (cwd : tree) (file_path : str) :=
  check_tabs_on file_path (open_ cwd file_path).
Definition check_include_guards (cwd : tree) (file_path : str) :=
  check_include_guards_on file_path (open_ cwd file_path).
Definition check_namespace_comments (cwd : tree) (file_path : str) :=
  check_namespace_comments_on file_path (open_ cwd file_path).
Definition check_indentation (cwd : tree) (file_path : str) :=
  check_indentation_on file_path (open_ cwd file_path).

(** The list [checks] of [main], the line-length limit already applied. *)
Definition checks : list (string * (tree -> str -> list issue)) :=
  [ ("Line length"%string, fun cwd p => check_line_length cwd p 100);
    ("Trailing whitespace"%string, check_trailing_whitespace);
    ("Tab characters"%string, check_tabs);
    ("Include guards"%string, check_include_guards);
    ("Namespace comments"%string, check_namespace_comments);
    ("Indentation"%string, check_indentation) ].

(** [check_issues] of one round of the outer loop. *)
Definition check_issues (cwd : tree) (cpp_files : list str)
    (check_func : tree -> str -> list issue) : list issue :=
  flat_map (check_func cwd) cpp_files.

Definition all_issues (cwd : tree) (cpp_files : list str) : list issue :=
  flat_map (fun c => check_issues cwd cpp_files (snd c)) checks.

(** The value [main] returns, which [sys.exit] makes the exit status. *)
Definition main (cwd : tree) : nat :=
  match find_cpp_files cwd with
  | [] => 1
  | cpp_files =>
      match all_issues cwd cpp_files with
      | [] => 0
      | found => Nat.min (length found) 10
      end
  end.

End Checks.

(** ** Vocabulary of the statements *)

(** The first position of a list at which a test holds. *)
Fixpoint first_index (A : Type) (test : A -> bool) (xs : list A)
    : option nat :=
  match xs with
  | [] => None
  | x :: r =>
      if test x then Some 0
      else match first_index test r with
           | Some i => Some (S i)
           | None => None
           end
  end.

(** A line that is not blank and starts with a number of spaces that is
    positive and no multiple of 4. *)
Definition misindented (line : str) : bool :=
  negb (str_eqb (strip line) [])
  && (0 <? leading_space line)
  && negb (leading_space line mod 4 =? 0).

(** A line of words only: up to its line feed, the text behind the
    indentation holds nothing but word characters and white space. *)
Definition words_only (unicode_alnum : char -> bool) (line : str) : bool :=
  forallb (fun c => is_word unicode_alnum c || is_space c)
          (take_while (fun c => negb (c =? LF)%N) (lstrip line)).

(** [sub] occurs in [s]. *)
Definition occurs (sub s : str) : Prop :=
  exists before after, s = before ++ sub ++ after.

(** A directive with a name occurs in [s]: the keyword, white space, and a
    word character. *)
Definition has_directive (unicode_alnum : char -> bool) (keyword s : str)
    : Prop :=
  exists before spaces c after,
    s = before ++ keyword ++ spaces ++ c :: after
    /\ spaces <> []
    /\ Forall (fun x => is_space x = true) spaces
    /\ is_word unicode_alnum c = true.

(** The text is the prefix followed by a name and nothing else. *)
Definition prefix_and_name (unicode_alnum : char -> bool)
    (prefix s : str) : Prop :=
  exists name,
    s = prefix ++ name /\ name <> []
    /\ Forall (fun x => is_word unicode_alnum x = true) name.

(** The text starts with the prefix and a word character. *)
Definition prefix_and_word (unicode_alnum : char -> bool)
    (prefix s : str) : Prop :=
  exists c rest,
    s = prefix ++ c :: rest /\ is_word unicode_alnum c = true.

(** A line that closes a block, and a closing line whose comment the
    Namespace check accepts: one of its two patterns matches. *)
Definition is_closing_line (stripped : str) : bool :=
  str_eqb stripped (lit "}") || startswith (lit "} ") stripped.

Definition closing_comment_accepted (unicode_alnum : char -> bool)
    (stripped : str) : bool :=
  re_match_prefix_word unicode_alnum (lit "}  // namespace ") stripped
  || re_match_prefix_word unicode_alnum (lit "} // namespace ") stripped.

(** An entry reachable from a directory listing by a relative path. *)
Inductive below : list (str * node) -> list str -> node -> Prop :=
| below_entry : forall es nm n, In (nm, n) es -> below es [nm] n
| below_subdir : forall es nm es' rel n,
    In (nm, Dir es') es -> below es' rel n -> below es (nm :: rel) n.

Definition str_le (a b : str) : Prop := str_leb a b = true.

(** ** Sample inputs *)

Definition nl (x : string) : str := lit x ++ [LF].

Definition ten_blank_lines : list str := repeat [LF] 10.

(** A two-line namespace opened on line 11 and closed bare on line 12. *)
Definition short_namespace_late : list str :=
  ten_blank_lines ++ [nl "namespace a {"; nl "}"].

(** The same namespace closed with a comment that goes on after the name. *)
Definition namespace_with_long_comment : list str :=
  ten_blank_lines ++ [nl "namespace a {"; nl "} // namespace a and more"].

(** A namespace of twelve lines closed bare on line 13. *)
Definition long_namespace : list str :=
  [nl "namespace a {"] ++ repeat [LF] 11 ++ [nl "}"].

Definition line_of_101 : str := repeat 97%N 101 ++ [LF].

(** One source file whose only defect is a tab. *)
Definition one_tab_tree : tree :=
  [(lit "src", Dir [(lit "a.cpp", File (readable [TAB :: nl "x"]))])].

(** One clean source file. *)
Definition clean_tree : tree :=
  [(lit "src", Dir [(lit "a.cpp", File (readable [nl "int x;"]))])].

(** A directory with the name of a source file, and nothing else. *)
Definition directory_tree : tree :=
  [(lit "src", Dir [(lit "x.cpp", Dir [])])].

(** One file of each accepted suffix, and one of none. *)
Definition five_suffixes_tree : tree :=
  [(lit "include",
    Dir [(lit "a.hpp", File (readable [])); (lit "a.h", File (readable []));
         (lit "a.txt", File (readable []))]);
   (lit "src",
    Dir [(lit "a.cxx", File (readable [])); (lit "a.cpp", File (readable []));
         (lit "a.cc", File (readable []))])].

(** ** Terminal output *)

Definition ESC : char := 27%N.

(** The dictionary [colors] of [print_colored]. *)
Definition colors : list (str * str) :=
  [ (lit "red", ESC :: lit "[0;31m");
    (lit "green", ESC :: lit "[0;32m");
    (lit "yellow", ESC :: lit "[1;33m");
    (lit "blue", ESC :: lit "[0;34m");
    (lit "reset", ESC :: lit "[0m") ].

(** [d.get(key, default)]. *)
Fixpoint dict_get (key : str) (d : list (str * str)) (default : str) : str :=
  match d with
  | [] => default
  | (k, v) :: r => if str_eqb k key then v else dict_get key r default
  end.

(** The text [print_colored] hands to [print]; [colors['reset']] is a key
    of the dictionary, so the subscript cannot fail. *)
Definition print_colored (message color : str) : str :=
  dict_get color colors [] ++ message ++ dict_get (lit "reset") colors [].

(** ** Further vocabulary *)

(** The text ends in a white-space character. *)
Definition ends_in_space (s : str) : Prop :=
  exists body c, s = body ++ [c] /\ is_space c = true.

(** A line on which the Namespace check pushes a namespace. *)
Definition opens_namespace (unicode_alnum : char -> bool) (line : str)
    : bool :=
  match re_match_keyword unicode_alnum (lit "namespace") (strip line) with
  | Some _ => true
  | None => false
  end.

(** The line an issue points at, 0 for an issue about the whole file. *)
Definition line_of (i : issue) : nat :=
  match i with
  | LineTooLong _ n _ _ => n
  | TrailingWhitespace _ n => n
  | MissingNamespaceComment _ n => n
  | InconsistentIndentation _ n => n
  | ContainsTabs _ | MissingIncludeGuards _ | ErrorReadingFile _ _ => 0
  end.

(** The file an issue is about: the path its message starts with. *)
Definition path_of (i : issue) : str :=
  match i with
  | LineTooLong p _ _ _ | TrailingWhitespace p _ | ContainsTabs p
  | MissingIncludeGuards p | MissingNamespaceComment p _
  | InconsistentIndentation p _ | ErrorReadingFile p _ => p
  end.

(** The same tree with the entries of its directories listed in another
    order: entry by entry the names agree and what they name is such a
    tree again, and then the listing is rearranged. *)
#[warnings="-register-all"]
Inductive reordered : node -> node -> Prop :=
| reordered_file : forall f, reordered (File f) (File f)
| reordered_dir : forall es middle es',
    Forall2 (fun e e' => fst e = fst e' /\ reordered (snd e) (snd e'))
            es middle ->
    Permutation middle es' ->
    reordered (Dir es) (Dir es').

(** * Properties *)

(** ** Text *)

Lemma str_eqb_eq (a b : str) : str_eqb a b = true <-> a = b.
Proof.
  revert b; induction a as [|x a IH]; intros [|y b]; simpl;
    try (split; [discriminate | discriminate]); try tauto.
  rewrite andb_true_iff, N.eqb_eq, IH.
  split; [intros [-> ->]; reflexivity | intros H; inversion H; auto].
Qed.

Lemma str_eqb_refl (a : str) : str_eqb a a = true.
Proof. apply str_eqb_eq; reflexivity. Qed.

Lemma strip_prefix_Some (prefix s rest : str) :
  strip_prefix prefix s = Some rest <-> s = prefix ++ rest.
Proof.
  revert s; induction prefix as [|x prefix IH]; intros s; simpl.
  - split; [intros H; inversion H; reflexivity | intros ->; reflexivity].
  - destruct s as [|y s]; [split; discriminate|].
    destruct (N.eqb_spec x y) as [->|Hne].
    + rewrite IH; split; [intros ->; reflexivity | intros H; inversion H; auto].
    + split; [discriminate | intros H; inversion H; congruence].
Qed.

Lemma strip_prefix_app (prefix rest : str) :
  strip_prefix prefix (prefix ++ rest) = Some rest.
Proof. apply strip_prefix_Some; reflexivity. Qed.

Lemma startswith_iff (prefix s : str) :
  startswith prefix s = true <-> exists rest, s = prefix ++ rest.
Proof.
  unfold startswith; destruct (strip_prefix prefix s) as [r|] eqn:E.
  - apply strip_prefix_Some in E; split; eauto.
  - split; [discriminate|]; intros [r Hr].
    apply strip_prefix_Some in Hr; congruence.
Qed.

Lemma endswith_iff (suffix s : str) :
  endswith suffix s = true <-> exists before, s = before ++ suffix.
Proof.
  unfold endswith; rewrite startswith_iff; split.
  - intros [r Hr]; exists (rev r).
    rewrite <- (rev_involutive s), Hr, rev_app_distr, rev_involutive.
    reflexivity.
  - intros [b ->]; exists (rev b); apply rev_app_distr.
Qed.

Lemma somewhere_iff (test : str -> bool) (s : str) :
  somewhere test s = true <->
  exists before after, s = before ++ after /\ test after = true.
Proof.
  induction s as [|c s IH]; simpl.
  - rewrite orb_false_r; split.
    + intros H; exists [], []; auto.
    + intros (b & a & Hs & Ht).
      symmetry in Hs; apply app_eq_nil in Hs as [_ ->]; exact Ht.
  - rewrite orb_true_iff, IH; split.
    + intros [H | (b & a & -> & Ht)].
      * exists [], (c :: s); auto.
      * exists (c :: b), a; auto.
    + intros (b & a & Hs & Ht); destruct b as [|x b]; simpl in Hs.
      * left; subst a; exact Ht.
      * right; inversion Hs; subst; eauto.
Qed.

Lemma contains_iff (sub s : str) : contains sub s = true <-> occurs sub s.
Proof.
  unfold contains, occurs; rewrite somewhere_iff; split.
  - intros (b & a & -> & Ht); apply startswith_iff in Ht as [r ->]; eauto.
  - intros (b & a & ->); exists b, (sub ++ a); split; auto.
    apply startswith_iff; eauto.
Qed.

Lemma drop_while_all (p : char -> bool) (s : str) :
  Forall (fun c => p c = true) s -> drop_while p s = [].
Proof. induction 1 as [|c s Hc _ IH]; simpl; [|rewrite Hc]; auto. Qed.

Lemma drop_while_app_stop (p : char -> bool) (s : str) (c : char) (r : str) :
  Forall (fun x => p x = true) s -> p c = false ->
  drop_while p (s ++ c :: r) = c :: r.
Proof.
  induction 1 as [|x s Hx _ IH]; simpl; intros Hc.
  - rewrite Hc; reflexivity.
  - rewrite Hx; auto.
Qed.

Lemma drop_while_length (p : char -> bool) (s : str) :
  length (drop_while p s) <= length s.
Proof.
  induction s as [|c s IH]; simpl; [lia|]; destruct (p c); simpl; lia.
Qed.

(** Stripping line terminators removes the terminators at the end and nothing
    else: whatever stands before them, white space included, stays. *)
Lemma rstrip_terminators (body terminators : str) :
  Forall (fun c => c = LF \/ c = CR) terminators ->
  (forall b c, body = b ++ [c] -> c <> LF /\ c <> CR) ->
  rstrip_chars [LF; CR] (body ++ terminators) = body.
Proof.
  intros Ht Hb; unfold rstrip_chars; rewrite rev_app_distr.
  assert (Hall : Forall (fun c => char_in [LF; CR] c = true) (rev terminators)).
  { apply Forall_rev; eapply Forall_impl; [|exact Ht].
    intros c [-> | ->]; reflexivity. }
  destruct (rev body) as [|c r] eqn:E.
  - rewrite app_nil_r, drop_while_all by exact Hall.
    rewrite <- (rev_involutive body), E; reflexivity.
  - assert (Hbody : body = rev r ++ [c])
      by (rewrite <- (rev_involutive body), E; reflexivity).
    destruct (Hb _ _ Hbody) as [H1 H2].
    rewrite drop_while_app_stop; [symmetry; exact Hbody | exact Hall |].
    unfold char_in; simpl.
    destruct (N.eqb_spec c LF); [contradiction|].
    destruct (N.eqb_spec c CR); [contradiction|]; reflexivity.
Qed.

Lemma nth_error_enumerate (A : Type) (xs : list A) (start i : nat) :
  nth_error (enumerate start xs) i =
  option_map (fun x => (start + i, x)) (nth_error xs i).
Proof.
  revert start i; induction xs as [|x xs IH]; intros start [|i]; simpl; auto.
  - rewrite Nat.add_0_r; reflexivity.
  - rewrite IH, Nat.add_succ_r; reflexivity.
Qed.

(** ** Line length *)

Section LineLength.

Variables (file_path : str) (max_length : nat).

Let content (line : str) : str := rstrip_chars [LF; CR] line.

Lemma In_line_length_loop (lines : list str) (start : nat) (i : issue) :
  In i (line_length_loop file_path max_length (enumerate start lines)) <->
  exists n line,
    nth_error lines n = Some line
    /\ max_length < length (content line)
    /\ i = LineTooLong file_path (start + n) (length (content line)) max_length.
Proof.
  revert start; induction lines as [|l lines IH]; intros start; simpl.
  - split; [tauto | intros ([|n] & line & H & _); discriminate].
  - rewrite in_app_iff, IH; fold (content l); split.
    + intros [H | (n & line & Hn & Hlen & ->)].
      * destruct (Nat.ltb_spec max_length (length (content l))) as [Hlt|];
          [|contradiction].
        destruct H as [<- | []]; exists 0, l; rewrite Nat.add_0_r; auto.
      * exists (S n), line; rewrite Nat.add_succ_r; auto.
    + intros ([|n] & line & Hn & Hlen & ->); simpl in Hn.
      * inversion Hn; subst line; left.
        apply Nat.ltb_lt in Hlen; rewrite Hlen, Nat.add_0_r; left; reflexivity.
      * right; exists n, line; rewrite Nat.add_succ_r; auto.
Qed.

Lemma line_length_loop_NoDup (lines : list str) (start : nat) :
  NoDup (line_length_loop file_path max_length (enumerate start lines)).
Proof.
  revert start; induction lines as [|l lines IH]; intros start; simpl.
  - constructor.
  - destruct (max_length <? length (rstrip_chars [LF; CR] l)); simpl; auto.
    constructor; auto.
    intros Hin; apply In_line_length_loop in Hin as (n & line & _ & _ & E).
    inversion E; lia.
Qed.

Lemma line_length_loop_length (lines : list str) (start : nat) :
  length (line_length_loop file_path max_length (enumerate start lines)) =
  length (filter (fun l => max_length <? length (content l)) lines).
Proof.
  revert start; induction lines as [|l lines IH]; intros start; simpl; auto.
  rewrite length_app, IH; fold (content l).
  destruct (max_length <? length (content l)); reflexivity.
Qed.

End LineLength.

(** C6 -- Line Length on a readable file: the issues are exactly the records
    (line number counted from 1, stripped length, limit 100) of the lines whose
    length without the line terminators exceeds 100, one for each such
    line and none for any other; only terminators are stripped. *)
Theorem line_length_one_issue_per_long_line (file_path : str)
    (lines : list str) :
  let out := check_line_length_on file_path (readable lines) 100 in
  let content := rstrip_chars [LF; CR] in
  (forall i, In i out <->
     exists n line,
       nth_error lines n = Some line
       /\ 100 < length (content line)
       /\ i = LineTooLong file_path (S n) (length (content line)) 100)
  /\ NoDup out
  /\ length out = length (filter (fun l => 100 <? length (content l)) lines)
  /\ (forall body terminators,
        Forall (fun c => c = LF \/ c = CR) terminators ->
        (forall b c, body = b ++ [c] -> c <> LF /\ c <> CR) ->
        content (body ++ terminators) = body).
Proof.
  cbv zeta; unfold check_line_length_on, readable; simpl.
  rewrite app_nil_r; repeat split.
  - intros H; apply In_line_length_loop in H; exact H.
  - intros H; apply In_line_length_loop; exact H.
  - apply line_length_loop_NoDup.
  - apply line_length_loop_length.
  - apply rstrip_terminators.
Qed.

(** A line of 101 letters after a short one is reported with its number and
    its length. *)
Lemma line_length_one_issue_per_long_line_witness :
  In (LineTooLong (lit "src/a.cpp") 2 101 100)
     (check_line_length_on (lit "src/a.cpp")
        (readable [nl "int x;"; line_of_101]) 100)
  /\ length (check_line_length_on (lit "src/a.cpp")
        (readable [nl "int x;"; line_of_101]) 100) = 1.
Proof.
  destruct (line_length_one_issue_per_long_line (lit "src/a.cpp")
              [nl "int x;"; line_of_101]) as (Hin & _ & Hlen & _).
  split.
  - apply Hin; exists 1, line_of_101; repeat split.
    apply Nat.ltb_lt; vm_compute; reflexivity.
  - rewrite Hlen; vm_compute; reflexivity.
Defined.

(** ** Indentation *)

Lemma first_index_Some (A : Type) (test : A -> bool) (xs : list A) (i : nat) :
  first_index test xs = Some i ->
  exists x, nth_error xs i = Some x /\ test x = true
            /\ first_index test (firstn i xs) = None.
Proof.
  revert i; induction xs as [|x xs IH]; simpl; [discriminate|].
  intros i; destruct (test x) eqn:Ex.
  - intros H; inversion H; subst; exists x; auto.
  - destruct (first_index test xs) as [j|]; [|discriminate].
    intros H; inversion H; subst.
    destruct (IH j eq_refl) as (y & Hy & Hty & Hpre).
    exists y; simpl; rewrite Ex, Hpre; auto.
Qed.

Lemma first_index_app_hit (A : Type) (test : A -> bool)
    (before : list A) (x : A) (after : list A) :
  first_index test before = None -> test x = true ->
  first_index test (before ++ x :: after) = Some (length before).
Proof.
  induction before as [|y before IH]; simpl; intros Hb Hx.
  - rewrite Hx; reflexivity.
  - destruct (test y); [discriminate|].
    destruct (first_index test before); [discriminate|].
    rewrite IH; auto.
Qed.

Lemma leading_space_spaces (k : nat) (c : char) (rest : str) :
  c <> SPACE -> leading_space (repeat SPACE k ++ c :: rest) = k.
Proof.
  intros Hc; unfold leading_space, lstrip_chars.
  rewrite drop_while_app_stop.
  - rewrite length_app, repeat_length; simpl; lia.
  - apply Forall_forall; intros x Hx; apply repeat_spec in Hx; subst x.
    reflexivity.
  - unfold char_in; simpl; destruct (N.eqb_spec c SPACE); [contradiction|].
    reflexivity.
Qed.

Lemma leading_space_no_space (c : char) (rest : str) :
  c <> SPACE -> leading_space (c :: rest) = 0.
Proof. intros Hc; exact (leading_space_spaces 0 rest Hc). Qed.

Section Indentation.

Variable unicode_alnum : char -> bool.
Variable file_path : str.

Let flagged (line : str) : bool :=
  misindented line && words_only unicode_alnum line.

Lemma words_only_alignment (line : str) :
  words_only unicode_alnum line =
  negb (re_match_alignment unicode_alnum (lstrip line)).
Proof.
  unfold words_only, re_match_alignment.
  induction (take_while (fun c => negb (c =? LF)%N) (lstrip line))
    as [|c s IH]; simpl; auto.
  rewrite IH, negb_orb, negb_andb, !negb_involutive; reflexivity.
Qed.

Lemma indentation_loop_first (lines : list str) (start : nat)
    (failed : option exn) :
  indentation_loop unicode_alnum file_path (enumerate start lines) failed =
  match first_index flagged lines with
  | Some i => [InconsistentIndentation file_path (start + i)]
  | None => on_failure file_path failed
  end.
Proof.
  revert start; induction lines as [|l lines IH]; intros start;
    cbn [enumerate indentation_loop first_index]; [reflexivity|].
  rewrite IH.
  change (flagged l) with (misindented l && words_only unicode_alnum l).
  unfold misindented; rewrite words_only_alignment.
  assert (Hnext :
    match first_index flagged lines with
    | Some i => [InconsistentIndentation file_path (S start + i)]
    | None => on_failure file_path failed
    end =
    match
      match first_index flagged lines with
      | Some i => Some (S i)
      | None => None
      end
    with
    | Some i => [InconsistentIndentation file_path (start + i)]
    | None => on_failure file_path failed
    end).
  { destruct (first_index flagged lines); [rewrite Nat.add_succ_r|];
      reflexivity. }
  destruct (str_eqb (strip l) []); cbn [negb andb]; [exact Hnext|].
  destruct ((0 <? leading_space l) && negb (leading_space l mod 4 =? 0));
    cbn [negb andb]; [|exact Hnext].
  destruct (negb (re_match_alignment unicode_alnum (lstrip l)));
    [rewrite Nat.add_0_r; reflexivity | exact Hnext].
Qed.

Lemma In_check_indentation (f : file) (m : nat) :
  In (InconsistentIndentation file_path m)
     (check_indentation_on unicode_alnum file_path f) ->
  exists i line,
    m = S i /\ nth_error (delivered f) i = Some line
    /\ misindented line = true /\ words_only unicode_alnum line = true.
Proof.
  unfold check_indentation_on; rewrite indentation_loop_first.
  destruct (first_index flagged (delivered f)) as [i|] eqn:E.
  - intros [H | []]; inversion H; subst.
    apply first_index_Some in E as (line & Hn & Ht & _).
    apply andb_true_iff in Ht as [H1 H2]; exists i, line; auto.
  - destruct (failure f); simpl; [intros [H | []]; discriminate | tauto].
Qed.

End Indentation.

(** C3, as the code has it -- Indentation flags the first line that is not
    blank, starts with a positive number of spaces that is no multiple of 4 and
    holds only word characters and white space; a line with any other
    character is passed over as alignment.  There is one issue at most, and
    nothing behind the flagged line is read: neither the lines after it nor a
    failure of the reading change the result. *)
Theorem indentation_flags_first_plain_misindented_line
    (unicode_alnum : char -> bool) (file_path : str) (lines : list str)
    (failed : option exn) :
  let flagged l := misindented l && words_only unicode_alnum l in
  check_indentation_on unicode_alnum file_path
    {| delivered := lines; failure := failed |} =
    match first_index flagged lines with
    | Some i => [InconsistentIndentation file_path (S i)]
    | None => on_failure file_path failed
    end
  /\ (forall before line after,
        lines = before ++ line :: after ->
        first_index flagged before = None -> flagged line = true ->
        check_indentation_on unicode_alnum file_path
          {| delivered := lines; failure := failed |} =
        [InconsistentIndentation file_path (S (length before))]).
Proof.
  cbv zeta; unfold check_indentation_on; simpl.
  rewrite indentation_loop_first; split; [reflexivity|].
  intros before line after -> Hb Hl.
  rewrite first_index_app_hit by assumption; reflexivity.
Qed.

(** The second line is the first one of words only: it is flagged, and the
    failure behind it is never met. *)
Lemma indentation_flags_first_plain_misindented_line_witness :
  (forall unicode_alnum,
     check_indentation_on unicode_alnum (lit "src/a.cpp")
       (failing [nl "  x;"; nl "  y"; nl " z"] (ReadFailure (lit "decode"))) =
     [InconsistentIndentation (lit "src/a.cpp") 2])
  /\ misindented (nl "  x;") = true.
Proof.
  split; [|reflexivity].
  intros unicode_alnum.
  destruct (indentation_flags_first_plain_misindented_line unicode_alnum
              (lit "src/a.cpp") [nl "  x;"; nl "  y"; nl " z"]
              (Some (ReadFailure (lit "decode")))) as [_ H].
  apply (H [nl "  x;"] (nl "  y") [nl " z"]); reflexivity.
Defined.

(** C3, as specified, fails: a misindented line that holds a semicolon
    is the first misindented line of its file, and the check reports
    nothing. *)
Lemma indentation_passes_over_punctuated_line :
  first_index misindented [nl "  x;"] = Some 0
  /\ (forall unicode_alnum,
        check_indentation_on unicode_alnum (lit "src/a.cpp")
          (readable [nl "  x;"]) = []).
Proof. split; [reflexivity | intros unicode_alnum; reflexivity]. Qed.

(** C10 -- only spaces count as indentation: the count is the number of
    spaces before the first other character, and a line that starts with a
    tab, or with anything but a space, is never flagged. *)
Theorem indentation_never_flags_tab_indented_line
    (unicode_alnum : char -> bool) (file_path : str) (f : file) :
  (forall k c rest,
     c <> SPACE -> leading_space (repeat SPACE k ++ c :: rest) = k)
  /\ (forall n c rest,
        nth_error (delivered f) n = Some (c :: rest) -> c <> SPACE ->
        ~ In (InconsistentIndentation file_path (S n))
             (check_indentation_on unicode_alnum file_path f)).
Proof.
  split; [intros k c rest; apply leading_space_spaces|].
  intros n c rest Hn Hc Hin.
  apply In_check_indentation in Hin as (i & line & E & Hi & Hm & _).
  inversion E; subst i; rewrite Hn in Hi; inversion Hi; subst line.
  unfold misindented in Hm; rewrite (leading_space_no_space rest Hc) in Hm.
  rewrite andb_false_r in Hm; discriminate.
Qed.

(** A line indented with two tabs is not flagged and counts no space. *)
Lemma indentation_never_flags_tab_indented_line_witness :
  (forall unicode_alnum,
     ~ In (InconsistentIndentation (lit "src/a.cpp") 1)
          (check_indentation_on unicode_alnum (lit "src/a.cpp")
             (readable [TAB :: TAB :: nl "x"])))
  /\ leading_space (TAB :: TAB :: nl "x") = 0.
Proof.
  split; [|reflexivity].
  intros unicode_alnum.
  destruct (indentation_never_flags_tab_indented_line unicode_alnum
              (lit "src/a.cpp") (readable [TAB :: TAB :: nl "x"])) as [_ H].
  apply (H 0 TAB (TAB :: nl "x")); [reflexivity | discriminate].
Defined.

(** ** Namespace closing comments *)

Section Namespaces.

Variable unicode_alnum : char -> bool.
Variable file_path : str.

Lemma re_match_prefix_word_iff (prefix s : str) :
  re_match_prefix_word unicode_alnum prefix s = true <->
  prefix_and_word unicode_alnum prefix s.
Proof.
  unfold re_match_prefix_word, prefix_and_word.
  destruct (strip_prefix prefix s) as [[|c r]|] eqn:E.
  - apply strip_prefix_Some in E; split; [discriminate|].
    intros (c & r & Hs & _); rewrite Hs in E.
    apply app_inv_head in E; discriminate.
  - apply strip_prefix_Some in E; split; [eauto|].
    intros (c' & r' & Hs & Hw); rewrite Hs in E.
    apply app_inv_head in E; inversion E; subst; exact Hw.
  - split; [discriminate|]; intros (c & r & Hs & _).
    apply strip_prefix_Some in Hs; congruence.
Qed.

Lemma closing_line_opens_nothing (stripped : str) :
  is_closing_line stripped = true ->
  re_match_keyword unicode_alnum (lit "namespace") stripped = None.
Proof.
  unfold is_closing_line; rewrite orb_true_iff, str_eqb_eq, startswith_iff.
  intros [-> | [r ->]]; reflexivity.
Qed.

(** One round of the loop on a closing line while a namespace is open: the
    top of the stack is dropped unread; what decides is the comment and the
    number of the closing line. *)
Lemma namespace_loop_closing (line_num : nat) (line : str)
    (more : list (nat * str)) (top : str * nat) (stack : list (str * nat)) :
  is_closing_line (strip line) = true ->
  namespace_loop unicode_alnum file_path ((line_num, line) :: more)
    (top :: stack) =
  (if negb (closing_comment_accepted unicode_alnum (strip line))
      && (10 <? line_num)
   then [MissingNamespaceComment file_path line_num]
   else [])
  ++ namespace_loop unicode_alnum file_path more stack.
Proof.
  intros Hc; cbn [namespace_loop].
  rewrite (closing_line_opens_nothing _ Hc).
  unfold is_closing_line in Hc; rewrite Hc.
  unfold closing_comment_accepted; rewrite negb_orb.
  destruct (negb (re_match_prefix_word unicode_alnum
                    (lit "}  // namespace ") (strip line))
            && negb (re_match_prefix_word unicode_alnum
                       (lit "} // namespace ") (strip line)));
    reflexivity.
Qed.

End Namespaces.

(** C2, the code on a short namespace -- a namespace of two lines that is
    closed bare on line 12 is reported, although it spans one line: a bare
    closing brace is reported exactly when its own line number exceeds 10,
    whatever the line its namespace was opened on.  A namespace of more
    than ten lines is reported as the specification says. *)
Theorem namespace_check_measures_closing_line_number
    (unicode_alnum : char -> bool) (file_path : str) :
  check_namespace_comments_on unicode_alnum file_path
    (readable short_namespace_late) =
    [MissingNamespaceComment file_path 12]
  /\ check_namespace_comments_on unicode_alnum file_path
       (readable long_namespace) =
     [MissingNamespaceComment file_path 13]
  /\ (forall line_num name opened more stack,
        namespace_loop unicode_alnum file_path ((line_num, nl "}") :: more)
          ((name, opened) :: stack) =
        (if 10 <? line_num
         then [MissingNamespaceComment file_path line_num]
         else [])
        ++ namespace_loop unicode_alnum file_path more stack).
Proof.
  split; [reflexivity | split; [reflexivity|]].
  intros line_num name opened more stack.
  rewrite namespace_loop_closing by reflexivity.
  reflexivity.
Qed.

(** C8, as the code has it -- a closing line is accepted exactly when its
    stripped text starts with the brace, one or two spaces, the words
    [// namespace ] and one word character; what follows is not looked at.
    An accepted closing line raises no issue, any other closing line does
    from line 11 on. *)
Theorem namespace_comment_accepted_by_its_start
    (unicode_alnum : char -> bool) (stripped : str) :
  (closing_comment_accepted unicode_alnum stripped = true <->
   prefix_and_word unicode_alnum (lit "} // namespace ") stripped
   \/ prefix_and_word unicode_alnum (lit "}  // namespace ") stripped)
  /\ (forall file_path line_num line more top stack,
        strip line = stripped -> is_closing_line stripped = true ->
        namespace_loop unicode_alnum file_path ((line_num, line) :: more)
          (top :: stack) =
        (if negb (closing_comment_accepted unicode_alnum stripped)
            && (10 <? line_num)
         then [MissingNamespaceComment file_path line_num]
         else [])
        ++ namespace_loop unicode_alnum file_path more stack).
Proof.
  split.
  - unfold closing_comment_accepted.
    rewrite orb_true_iff, !re_match_prefix_word_iff; tauto.
  - intros file_path line_num line more top stack <- Hc.
    apply namespace_loop_closing; exact Hc.
Qed.

(** A comment that goes on after the name is accepted on line 12. *)
Lemma namespace_comment_accepted_by_its_start_witness :
  (forall unicode_alnum,
     closing_comment_accepted unicode_alnum
       (lit "} // namespace a and more") = true)
  /\ strip (nl "} // namespace a and more")
     = lit "} // namespace a and more".
Proof.
  split; [|reflexivity].
  intros unicode_alnum.
  apply (proj1 (namespace_comment_accepted_by_its_start unicode_alnum
                  (lit "} // namespace a and more"))).
  left; exists 97%N, (lit " and more"); split; reflexivity.
Defined.

(** C8, as specified, fails: the closing line on line 12 carries text
    behind the name, so it is not the brace, the comment and a name alone,
    and yet the check accepts it; the same namespace closed bare is
    reported. *)
Lemma namespace_comment_with_trailing_text_accepted :
  (forall unicode_alnum,
     check_namespace_comments_on unicode_alnum (lit "src/a.cpp")
       (readable namespace_with_long_comment) = [])
  /\ (forall unicode_alnum,
        check_namespace_comments_on unicode_alnum (lit "src/a.cpp")
          (readable short_namespace_late) =
        [MissingNamespaceComment (lit "src/a.cpp") 12])
  /\ (forall unicode_alnum,
        ~ prefix_and_name unicode_alnum (lit "} // namespace ")
            (strip (nl "} // namespace a and more")))
  /\ (forall unicode_alnum,
        ~ prefix_and_name unicode_alnum (lit "}  // namespace ")
            (strip (nl "} // namespace a and more"))).
Proof.
  split; [intros w; reflexivity|].
  split; [intros w; reflexivity|].
  split; intros w (name & E & _ & Hall).
  - change (strip (nl "} // namespace a and more"))
      with (lit "} // namespace " ++ lit "a and more") in E.
    apply app_inv_head in E; subst name.
    inversion Hall as [|c r _ Hrest]; subst.
    inversion Hrest as [|c' r' Hspace _]; subst.
    discriminate Hspace.
  - apply strip_prefix_Some in E; discriminate E.
Qed.

(** ** Include guards *)

Section IncludeGuards.

Variable unicode_alnum : char -> bool.

Lemma spaces_then_word_iff (s : str) :
  (exists g, spaces_then_word unicode_alnum s = Some g) <->
  exists spaces c after,
    s = spaces ++ c :: after
    /\ Forall (fun x => is_space x = true) spaces
    /\ is_word unicode_alnum c = true.
Proof.
  split.
  - induction s as [|c r IH]; simpl; [intros [g Hg]; discriminate|].
    intros [g Hg].
    destruct (is_space c) eqn:Hs.
    + destruct (spaces_then_word unicode_alnum r) as [g'|] eqn:Er.
      * destruct IH as (sp & x & after & -> & Hsp & Hx); [eauto|].
        exists (c :: sp), x, after; auto.
      * destruct (is_word unicode_alnum c) eqn:Hw; [|discriminate].
        exists [], c, r; auto.
    + destruct (is_word unicode_alnum c) eqn:Hw; [|discriminate].
      exists [], c, r; auto.
  - intros (sp & c & after & -> & Hsp & Hc).
    induction Hsp as [|x sp Hx _ IH]; simpl.
    + destruct (if is_space c then spaces_then_word unicode_alnum after
                else None); [eauto|].
      rewrite Hc; eauto.
    + rewrite Hx; destruct IH as [g ->]; eauto.
Qed.

Lemma re_match_keyword_iff (keyword s : str) :
  (exists g, re_match_keyword unicode_alnum keyword s = Some g) <->
  exists spaces c after,
    s = keyword ++ spaces ++ c :: after
    /\ spaces <> []
    /\ Forall (fun x => is_space x = true) spaces
    /\ is_word unicode_alnum c = true.
Proof.
  unfold re_match_keyword; split.
  - intros [g Hg].
    destruct (strip_prefix keyword s) as [[|x r]|] eqn:E; try discriminate.
    apply strip_prefix_Some in E; subst s.
    destruct (is_space x) eqn:Hx; [|discriminate].
    destruct (proj1 (spaces_then_word_iff r)) as (sp & c & after & -> & Hsp & Hc);
      [eauto|].
    exists (x :: sp), c, after; repeat split; auto; discriminate.
  - intros (sp & c & after & -> & Hne & Hsp & Hc).
    rewrite strip_prefix_app.
    destruct sp as [|x sp]; [contradiction|]; simpl.
    inversion Hsp as [|? ? Hx Hsp']; subst; rewrite Hx.
    apply spaces_then_word_iff; exists sp, c, after; auto.
Qed.

Lemma re_search_keyword_iff (keyword s : str) :
  re_search_keyword unicode_alnum keyword s = true <->
  has_directive unicode_alnum keyword s.
Proof.
  unfold re_search_keyword, has_directive; rewrite somewhere_iff; split.
  - intros (before & t & -> & Ht).
    destruct (re_match_keyword unicode_alnum keyword t) as [g|] eqn:E;
      [|discriminate].
    destruct (proj1 (re_match_keyword_iff keyword t))
      as (sp & c & after & -> & H); [eauto|].
    exists before, sp, c, after; auto.
  - intros (before & sp & c & after & -> & H).
    exists before, (keyword ++ sp ++ c :: after); split; auto.
    destruct (proj2 (re_match_keyword_iff keyword
                       (keyword ++ sp ++ c :: after))) as [g ->]; eauto.
Qed.

End IncludeGuards.

Lemma is_header_iff (file_path : str) :
  is_header file_path = true <->
  exists stem, file_path = stem ++ lit ".hpp" \/ file_path = stem ++ lit ".h".
Proof.
  unfold is_header; rewrite orb_true_iff, !endswith_iff; split.
  - intros [[b H] | [b H]]; eauto.
  - intros [b [H | H]]; eauto.
Qed.

(** C7 -- Include Guards: nothing for a path without header suffix, whatever
    the file; nothing for a header that holds the pragma; otherwise one
    issue exactly when one of the three patterns is absent, each looked
    for on its own, so that the two names need not agree. *)
Theorem include_guards_presence_check (unicode_alnum : char -> bool)
    (file_path : str) :
  let check := check_include_guards_on unicode_alnum file_path in
  let complete content :=
    has_directive unicode_alnum (lit "#ifndef") content
    /\ has_directive unicode_alnum (lit "#define") content
    /\ occurs (lit "#endif") content in
  (is_header file_path = true <->
   exists stem,
     file_path = stem ++ lit ".hpp" \/ file_path = stem ++ lit ".h")
  /\ (forall f, is_header file_path = false -> check f = [])
  /\ (forall lines,
        is_header file_path = true ->
        occurs (lit "#pragma once") (concat lines) ->
        check (readable lines) = [])
  /\ (forall lines,
        is_header file_path = true ->
        ~ occurs (lit "#pragma once") (concat lines) ->
        (complete (concat lines) -> check (readable lines) = [])
        /\ (~ complete (concat lines) ->
            check (readable lines) = [MissingIncludeGuards file_path]))
  /\ check_include_guards_on unicode_alnum (lit "include/a.h")
       (readable [nl "#ifndef A_H"; nl "#define B_H"; nl "#endif"]) = [].
Proof.
  cbv zeta; split; [apply is_header_iff|].
  unfold check_include_guards_on; repeat split.
  - intros f ->; reflexivity.
  - intros lines -> Hp; apply contains_iff in Hp; simpl; rewrite Hp.
    reflexivity.
  - intros (H1 & H2 & H3); rewrite H; simpl.
    destruct (contains (lit "#pragma once") (concat lines)); [reflexivity|].
    apply re_search_keyword_iff in H1, H2; apply contains_iff in H3.
    rewrite H1, H2, H3; reflexivity.
  - intros Hn; rewrite H; simpl.
    destruct (contains (lit "#pragma once") (concat lines)) eqn:Ep.
    + apply contains_iff in Ep; contradiction.
    + destruct (re_search_keyword unicode_alnum (lit "#ifndef") (concat lines))
        eqn:E1; [|reflexivity].
      destruct (re_search_keyword unicode_alnum (lit "#define") (concat lines))
        eqn:E2; [|reflexivity].
      destruct (contains (lit "#endif") (concat lines)) eqn:E3; [|reflexivity].
      exfalso; apply Hn; repeat split.
      * apply re_search_keyword_iff; exact E1.
      * apply re_search_keyword_iff; exact E2.
      * apply contains_iff; exact E3.
Qed.

(** A header without pragma and without [#endif] gets its one issue; a
    source file with the same text gets none. *)
Lemma include_guards_presence_check_witness :
  (forall unicode_alnum,
     check_include_guards_on unicode_alnum (lit "include/a.h")
       (readable [nl "#ifndef A_H"; nl "#define A_H"]) =
     [MissingIncludeGuards (lit "include/a.h")])
  /\ (forall unicode_alnum,
        check_include_guards_on unicode_alnum (lit "src/a.cpp")
          (readable [nl "#ifndef A_H"; nl "#define A_H"]) = []).
Proof.
  split; intros unicode_alnum.
  - destruct (include_guards_presence_check unicode_alnum (lit "include/a.h"))
      as (_ & _ & _ & H & _).
    apply (H [nl "#ifndef A_H"; nl "#define A_H"]).
    + reflexivity.
    + intros Hp; apply contains_iff in Hp; discriminate Hp.
    + intros (_ & _ & He); apply contains_iff in He; discriminate He.
  - destruct (include_guards_presence_check unicode_alnum (lit "src/a.cpp"))
      as (_ & H & _).
    apply H; reflexivity.
Defined.

(** ** Files that cannot be read *)

Lemma in_all_issues (unicode_alnum : char -> bool) (cwd : tree)
    (cpp_files : list str) (c : string * (tree -> str -> list issue))
    (file_path : str) :
  In c (checks unicode_alnum) -> In file_path cpp_files ->
  incl (snd c cwd file_path) (all_issues unicode_alnum cwd cpp_files).
Proof.
  intros Hc Hp i Hi; unfold all_issues, check_issues.
  apply in_flat_map; exists c; split; [exact Hc|].
  apply in_flat_map; exists file_path; auto.
Qed.

(** C9, as the code has it -- a check that reads the whole file at once
    (Tabs, Include Guards on a header, Namespace Comments) answers a failure
    with the one read-failure issue and nothing else.  So does a check that
    reads line by line when nothing was delivered before the failure; when
    lines were delivered, Line Length and Trailing Whitespace report them as
    for a readable file and then the failure, and Indentation reports the
    failure unless it has flagged a line before.  Every check is run on
    every discovered file: its issues are part of the total. *)
Theorem read_failure_is_one_issue (unicode_alnum : char -> bool)
    (file_path : str) (e : exn) :
  let failed := ErrorReadingFile file_path e in
  (forall lines, check_tabs_on file_path (failing lines e) = [failed])
  /\ (forall lines,
        is_header file_path = true ->
        check_include_guards_on unicode_alnum file_path (failing lines e)
        = [failed])
  /\ (forall lines,
        check_namespace_comments_on unicode_alnum file_path (failing lines e)
        = [failed])
  /\ (forall max_length,
        check_line_length_on file_path (failing [] e) max_length = [failed])
  /\ check_trailing_whitespace_on file_path (failing [] e) = [failed]
  /\ check_indentation_on unicode_alnum file_path (failing [] e) = [failed]
  /\ (forall lines max_length,
        check_line_length_on file_path (failing lines e) max_length =
        check_line_length_on file_path (readable lines) max_length
        ++ [failed])
  /\ (forall lines,
        check_trailing_whitespace_on file_path (failing lines e) =
        check_trailing_whitespace_on file_path (readable lines) ++ [failed])
  /\ (forall lines,
        check_indentation_on unicode_alnum file_path (failing lines e) =
        match check_indentation_on unicode_alnum file_path (readable lines)
        with
        | [] => [failed]
        | flagged => flagged
        end)
  /\ (forall cwd c,
        In c (checks unicode_alnum) -> In file_path (find_cpp_files cwd) ->
        incl (snd c cwd file_path)
             (all_issues unicode_alnum cwd (find_cpp_files cwd))).
Proof.
  cbv zeta; repeat split; try reflexivity.
  - intros lines H; unfold check_include_guards_on; rewrite H; reflexivity.
  - intros lines max_length; unfold check_line_length_on; simpl.
    rewrite app_nil_r; reflexivity.
  - intros lines; unfold check_trailing_whitespace_on; simpl.
    rewrite app_nil_r; reflexivity.
  - intros lines; unfold check_indentation_on, failing, readable; simpl.
    rewrite !indentation_loop_first.
    destruct (first_index _ lines); reflexivity.
  - intros cwd c Hc Hp; apply in_all_issues; assumption.
Qed.

(** A header that cannot be opened, and a directory found under the name
    of a source file. *)
Lemma read_failure_is_one_issue_witness :
  (forall unicode_alnum,
     check_include_guards_on unicode_alnum (lit "include/a.h")
       (failing [] (ReadFailure (lit "Permission denied"))) =
     [ErrorReadingFile (lit "include/a.h")
        (ReadFailure (lit "Permission denied"))])
  /\ (forall unicode_alnum,
        incl [ErrorReadingFile (lit "src/x.cpp")
                (IsADirectoryError (lit "src/x.cpp"))]
             (all_issues unicode_alnum directory_tree
                (find_cpp_files directory_tree))).
Proof.
  split; intros unicode_alnum.
  - destruct (read_failure_is_one_issue unicode_alnum (lit "include/a.h")
                (ReadFailure (lit "Permission denied"))) as (_ & H & _).
    apply H; reflexivity.
  - destruct (read_failure_is_one_issue unicode_alnum (lit "src/x.cpp")
                (ReadFailure [])) as (_ & _ & _ & _ & _ & _ & _ & _ & _ & H).
    apply (H directory_tree
             ("Tab characters"%string, check_tabs)).
    + right; right; left; reflexivity.
    + left; reflexivity.
Defined.

(** C9, as specified, fails: the reading breaks off behind a line
    of 101 letters, and Line Length reports that line and the failure. *)
Lemma line_length_reports_lines_before_failure :
  check_line_length_on (lit "src/a.cpp")
    (failing [line_of_101] (ReadFailure (lit "invalid start byte"))) 100 =
  [LineTooLong (lit "src/a.cpp") 1 101 100;
   ErrorReadingFile (lit "src/a.cpp")
     (ReadFailure (lit "invalid start byte"))].
Proof. reflexivity. Qed.

(** ** Discovery *)

Lemma In_insert_sorted (x y : str) (l : list str) :
  In y (insert_sorted x l) <-> y = x \/ In y l.
Proof.
  induction l as [|z l IH]; simpl.
  - intuition congruence.
  - destruct (str_leb x z); simpl; [intuition congruence|].
    rewrite IH; intuition congruence.
Qed.

Lemma In_sorted (y : str) (l : list str) : In y (sorted l) <-> In y l.
Proof.
  induction l as [|x l IH]; simpl; [tauto|].
  rewrite In_insert_sorted, IH; intuition congruence.
Qed.

Lemma str_leb_total (a b : str) : str_leb a b = false -> str_leb b a = true.
Proof.
  revert b; induction a as [|x a IH]; intros [|y b]; simpl; auto;
    try discriminate.
  destruct (N.ltb_spec x y); simpl; [discriminate|].
  destruct (N.eqb_spec x y) as [->|Hne]; simpl.
  - intros Hab; rewrite N.eqb_refl, (IH _ Hab), orb_true_r; reflexivity.
  - intros _; destruct (N.ltb_spec y x); [reflexivity | lia].
Qed.

Lemma str_le_trans (a b c : str) : str_le a b -> str_le b c -> str_le a c.
Proof.
  unfold str_le; revert b c; induction a as [|x a IH]; intros [|y b] [|z c];
    simpl; auto; try discriminate.
  rewrite !orb_true_iff, !andb_true_iff, !N.ltb_lt, !N.eqb_eq.
  intros [H1 | [H1 H1']] [H2 | [H2 H2']]; subst.
  - left; lia.
  - left; exact H1.
  - left; exact H2.
  - right; split; [reflexivity | eapply IH; eauto].
Qed.

Lemma insert_sorted_Sorted (x : str) (l : list str) :
  Sorted str_le l -> Sorted str_le (insert_sorted x l).
Proof.
  induction l as [|y l IH]; simpl; intros Hs.
  - repeat constructor.
  - destruct (str_leb x y) eqn:E.
    + constructor; [exact Hs | constructor; exact E].
    + apply Sorted_inv in Hs as [Hs Hd].
      constructor; [apply IH; exact Hs|].
      apply str_leb_total in E.
      destruct l as [|z l]; simpl.
      * constructor; exact E.
      * destruct (str_leb x z); constructor; [exact E|].
        inversion Hd; assumption.
Qed.

Lemma sorted_StronglySorted (l : list str) : StronglySorted str_le (sorted l).
Proof.
  apply Sorted_StronglySorted; [exact str_le_trans|].
  induction l as [|x l IH]; simpl; [constructor|].
  apply insert_sorted_Sorted; exact IH.
Qed.

(** [rglob] on a directory, without the local recursion. *)
Lemma rglob_Dir (self : path) (es : list (str * node)) :
  rglob self (Dir es) =
  map (fun e => self ++ [fst e]) es
  ++ flat_map (fun e => rglob (self ++ [fst e]) (snd e)) es.
Proof.
  cbn [rglob]; f_equal.
  induction es as [|[nm child] es IH]; [reflexivity|].
  cbn [flat_map fst snd]; rewrite <- IH; reflexivity.
Qed.

Lemma node_nested_ind (P : node -> Prop) :
  (forall f, P (File f)) ->
  (forall es, Forall (fun e => P (snd e)) es -> P (Dir es)) ->
  forall n, P n.
Proof.
  intros Hf Hd; fix IH 1; intros [f|es]; [apply Hf|].
  apply Hd; induction es as [|[nm child] es IHes]; constructor;
    [apply IH | exact IHes].
Qed.

Lemma below_rglob (es : list (str * node)) (rel : list str) (n : node) :
  below es rel n -> forall self, In (self ++ rel) (rglob self (Dir es)).
Proof.
  induction 1 as [es nm n Hin | es nm es' rel n Hin _ IH]; intros self;
    rewrite rglob_Dir; apply in_app_iff.
  - left; apply in_map_iff; exists (nm, n); auto.
  - right; apply in_flat_map; exists (nm, Dir es'); split; [exact Hin|].
    cbn [fst snd]; specialize (IH (self ++ [nm])).
    rewrite <- app_assoc in IH; exact IH.
Qed.

Lemma rglob_below (n : node) :
  forall self q, In q (rglob self n) ->
  exists es rel x, n = Dir es /\ below es rel x /\ q = self ++ rel.
Proof.
  induction n as [f|es IH] using node_nested_ind; intros self q;
    [intros []|].
  rewrite rglob_Dir, in_app_iff, in_map_iff, in_flat_map.
  intros [([nm x] & <- & Hin) | ([nm x] & Hin & Hq)].
  - exists es, [nm], x; repeat split; [constructor; exact Hin].
  - rewrite Forall_forall in IH.
    destruct (IH _ Hin _ _ Hq) as (es' & rel & y & E & Hb & ->).
    cbn [fst snd] in *; subst x.
    exists es, (nm :: rel), y; repeat split.
    + eapply below_subdir; eauto.
    + rewrite <- app_assoc; reflexivity.
Qed.

Lemma In_find_cpp_files (cwd : tree) (p : str) :
  In p (find_cpp_files cwd) <->
  exists root es rel n,
    In root roots /\ entry root cwd = Some (Dir es) /\ below es rel n
    /\ has_cpp_suffix (root :: rel) = true /\ p = path_str (root :: rel).
Proof.
  unfold find_cpp_files; rewrite In_sorted, in_flat_map; split.
  - intros (root & Hroot & Hp); unfold found_under in Hp.
    destruct (entry root cwd) as [n|] eqn:E; [|destruct Hp].
    apply in_map_iff in Hp as (q & <- & Hq).
    apply filter_In in Hq as [Hq Hs].
    apply rglob_below in Hq as (es & rel & x & -> & Hb & ->).
    exists root, es, rel, x; auto.
  - intros (root & es & rel & n & Hroot & E & Hb & Hs & ->).
    exists root; split; [exact Hroot|].
    unfold found_under; rewrite E.
    apply in_map_iff; exists (root :: rel); split; [reflexivity|].
    apply filter_In; split; [|exact Hs].
    exact (below_rglob Hb [root]).
Qed.

Lemma join_ends_with_last (parts : list str) :
  parts <> [] -> exists before, join SLASH parts = before ++ last parts [].
Proof.
  induction parts as [|x parts IH]; [congruence|]; intros _.
  destruct parts as [|y parts]; [exists []; reflexivity|].
  destruct IH as [b Hb]; [discriminate|].
  exists (x ++ SLASH :: b).
  change (join SLASH (x :: y :: parts))
    with (x ++ SLASH :: join SLASH (y :: parts)).
  rewrite Hb, <- app_assoc; reflexivity.
Qed.

Lemma name_suffix_ends (name : str) :
  exists stem, name = stem ++ name_suffix name.
Proof.
  unfold name_suffix; destruct (rfind DOT name) as [i|].
  - destruct ((0 <? i) && (i <? length name - 1)).
    + exists (firstn i name); symmetry; apply firstn_skipn.
    + exists name; symmetry; apply app_nil_r.
  - exists name; symmetry; apply app_nil_r.
Qed.

Lemma has_cpp_suffix_ends (p : path) :
  has_cpp_suffix p = true ->
  In (suffix p) cpp_extensions /\ endswith (suffix p) (path_str p) = true.
Proof.
  unfold has_cpp_suffix; rewrite existsb_exists.
  intros (ext & Hext & E); apply str_eqb_eq in E; rewrite E; split; auto.
  apply endswith_iff.
  destruct p as [|x p].
  - rewrite <- E in Hext; vm_compute in Hext; intuition discriminate.
  - destruct (@join_ends_with_last (x :: p)) as [b Hb]; [discriminate|].
    destruct (name_suffix_ends (last (x :: p) [])) as [stem Hstem].
    exists (b ++ stem); unfold path_str; rewrite Hb.
    rewrite Hstem at 1; unfold suffix in E; rewrite E, app_assoc.
    reflexivity.
Qed.

(** C4, as the code has it -- the allow-list holds five suffixes, and every
    discovered path is the text of a path whose suffix is one of the five,
    with which it ends; no path of another suffix is discovered. *)
Theorem discovered_paths_carry_an_allowed_suffix (cwd : tree) (p : str) :
  In p (find_cpp_files cwd) ->
  exists (q : path) (ext : str),
    p = path_str q /\ suffix q = ext /\ endswith ext p = true
    /\ In ext [lit ".cpp"; lit ".hpp"; lit ".h"; lit ".cxx"; lit ".cc"].
Proof.
  intros Hp; apply In_find_cpp_files in Hp
    as (root & es & rel & n & _ & _ & _ & Hs & ->).
  apply has_cpp_suffix_ends in Hs as [Hin Hend].
  exists (root :: rel), (suffix (root :: rel)); auto.
Qed.

Lemma discovered_paths_carry_an_allowed_suffix_witness :
  exists (q : path) (ext : str),
    lit "src/a.cc" = path_str q /\ suffix q = ext
    /\ endswith ext (lit "src/a.cc") = true
    /\ In ext [lit ".cpp"; lit ".hpp"; lit ".h"; lit ".cxx"; lit ".cc"].
Proof.
  apply (@discovered_paths_carry_an_allowed_suffix five_suffixes_tree).
  right; right; left; reflexivity.
Defined.

(** C4, as specified, fails: files of five different suffixes are
    discovered side by side. *)
Lemma five_suffixes_are_discovered :
  find_cpp_files five_suffixes_tree =
    [lit "include/a.h"; lit "include/a.hpp"; lit "src/a.cc"; lit "src/a.cpp";
     lit "src/a.cxx"]
  /\ length cpp_extensions = 5
  /\ NoDup cpp_extensions.
Proof.
  split; [reflexivity | split; [reflexivity|]].
  repeat constructor; simpl; intuition discriminate.
Qed.

(** X15 -- what discovery returns: a sequence sorted by path that holds
    exactly the paths, under the roots that exist, of the entries with an
    allowed suffix, whatever kind of entry they are, since the code tests
    the suffix alone; a root that does not exist adds nothing, and without
    any root the result is empty. *)
Theorem discovery_lists_entries_of_any_kind (cwd : tree) :
  StronglySorted str_le (find_cpp_files cwd)
  /\ (forall p,
        In p (find_cpp_files cwd) <->
        exists root es rel n,
          In root roots /\ entry root cwd = Some (Dir es)
          /\ below es rel n
          /\ has_cpp_suffix (root :: rel) = true
          /\ p = path_str (root :: rel))
  /\ (forall root, entry root cwd = None -> found_under cwd root = [])
  /\ ((forall root, In root roots -> entry root cwd = None) ->
      find_cpp_files cwd = []).
Proof.
  split; [apply sorted_StronglySorted|].
  split; [apply In_find_cpp_files|].
  split; [intros root E; unfold found_under; rewrite E; reflexivity|].
  intros Hnone.
  destruct (find_cpp_files cwd) as [|p l] eqn:E; [reflexivity|].
  assert (Hp : In p (find_cpp_files cwd)) by (rewrite E; left; reflexivity).
  apply In_find_cpp_files in Hp as (root & es & _ & _ & Hr & He & _).
  rewrite (Hnone _ Hr) in He; discriminate.
Qed.

(** The directory [src/x.cpp] is discovered, and nothing is found where no
    root exists. *)
Lemma discovery_lists_entries_of_any_kind_witness :
  In (lit "src/x.cpp") (find_cpp_files directory_tree)
  /\ find_cpp_files [(lit "docs", Dir [(lit "a.cpp", File (readable []))])]
     = [].
Proof.
  split.
  - destruct (discovery_lists_entries_of_any_kind directory_tree)
      as (_ & H & _).
    apply H.
    exists (lit "src"), [(lit "x.cpp", Dir [])], [lit "x.cpp"], (Dir []).
    repeat split; [left; reflexivity|].
    apply below_entry; left; reflexivity.
  - destruct (discovery_lists_entries_of_any_kind
                [(lit "docs", Dir [(lit "a.cpp", File (readable []))])])
      as (_ & _ & _ & H).
    apply H; intros root [<- | [<- | [<- | [<- | []]]]]; reflexivity.
Defined.

(** C5, the code on a directory named like a source file -- discovery is
    to find the C++ source files, and it returns the directory
    [src/x.cpp]: the entries are never tested for being files. *)
Lemma a_directory_is_discovered :
  find_cpp_files directory_tree = [lit "src/x.cpp"]
  /\ walk directory_tree (split_on SLASH (lit "src/x.cpp")) = Some (Dir []).
Proof. split; reflexivity. Qed.

(** ** The driver *)

(** C1, as the code has it -- the exit status is 1 without discovered
    files, 0 with files and no issue, and otherwise the number of issues
    capped at 10, which lies between 1 and 10: a single issue gives 1 as
    well. *)
Theorem exit_status_of_main (unicode_alnum : char -> bool) (cwd : tree) :
  let cpp_files := find_cpp_files cwd in
  let total := length (all_issues unicode_alnum cwd cpp_files) in
  (cpp_files = [] -> main unicode_alnum cwd = 1)
  /\ (cpp_files <> [] -> total = 0 -> main unicode_alnum cwd = 0)
  /\ (cpp_files <> [] -> total <> 0 ->
      main unicode_alnum cwd = Nat.min total 10
      /\ 1 <= main unicode_alnum cwd <= 10).
Proof.
  cbv zeta; unfold main.
  destruct (find_cpp_files cwd) as [|p files] eqn:E.
  - repeat split; congruence.
  - destruct (all_issues unicode_alnum cwd (p :: files)) as [|i found];
      simpl length.
    + repeat split; congruence.
    + split; [discriminate|]; split; [discriminate|].
      intros _ _; split; [reflexivity | lia].
Qed.

(** A clean tree exits with 0, a tree with a single tab with 1. *)
Lemma exit_status_of_main_witness :
  (forall unicode_alnum, main unicode_alnum clean_tree = 0)
  /\ (forall unicode_alnum,
        main unicode_alnum one_tab_tree = Nat.min 1 10).
Proof.
  split; intros unicode_alnum.
  - destruct (exit_status_of_main unicode_alnum clean_tree) as (_ & H & _).
    apply H; [discriminate | reflexivity].
  - destruct (exit_status_of_main unicode_alnum one_tab_tree)
      as (_ & _ & H).
    apply H; discriminate.
Defined.

(** C1, as specified, fails: one file is discovered, its single
    issue is a tab, and the exit status is 1, the status of a run without
    files. *)
Lemma one_issue_exits_with_1 :
  find_cpp_files one_tab_tree = [lit "src/a.cpp"]
  /\ (forall unicode_alnum,
        all_issues unicode_alnum one_tab_tree (find_cpp_files one_tab_tree)
        = [ContainsTabs (lit "src/a.cpp")])
  /\ (forall unicode_alnum, main unicode_alnum one_tab_tree = 1).
Proof.
  split; [reflexivity | split; intros unicode_alnum; reflexivity].
Qed.

(** * Further properties of the checks *)

(** ** Tabs *)

Lemma occurs_singleton (c : char) (s : str) : occurs [c] s <-> In c s.
Proof.
  unfold occurs; split.
  - intros (b & a & ->); apply in_elt.
  - intros H; apply in_split in H as (b & a & ->); exists b, a; reflexivity.
Qed.

(** X1 -- Tabs on a readable file: one issue for the file when some line
    holds a tab, however many there are, and none otherwise. *)
Theorem tabs_one_issue_per_file (file_path : str) (lines : list str) :
  ((exists line, In line lines /\ In TAB line) ->
   check_tabs_on file_path (readable lines) = [ContainsTabs file_path])
  /\ (~ (exists line, In line lines /\ In TAB line) ->
      check_tabs_on file_path (readable lines) = []).
Proof.
  unfold check_tabs_on; simpl.
  destruct (contains [TAB] (concat lines)) eqn:E; split; auto.
  - intros Hn; exfalso; apply Hn.
    apply contains_iff, occurs_singleton, in_concat in E
      as (line & H1 & H2); eauto.
  - intros (line & H1 & H2).
    assert (Ht : contains [TAB] (concat lines) = true).
    { apply contains_iff, occurs_singleton, in_concat; eauto. }
    congruence.
Qed.

Lemma tabs_one_issue_per_file_witness :
  check_tabs_on (lit "src/a.cpp")
    (readable [nl "int x;"; TAB :: TAB :: nl "y"; TAB :: nl "z"]) =
  [ContainsTabs (lit "src/a.cpp")].
Proof.
  apply (proj1 (tabs_one_issue_per_file (lit "src/a.cpp")
                  [nl "int x;"; TAB :: TAB :: nl "y"; TAB :: nl "z"])).
  exists (TAB :: nl "z"); split; [right; right|]; left; reflexivity.
Defined.

(** ** Trailing white space *)

Lemma drop_while_weaker (p q : char -> bool) (s : str) :
  (forall c, p c = true -> q c = true) ->
  drop_while q (drop_while p s) = drop_while q s.
Proof.
  intros Hpq; induction s as [|c s IH]; simpl; auto.
  destruct (p c) eqn:Hp; [rewrite (Hpq _ Hp); exact IH | reflexivity].
Qed.

Lemma drop_while_fixed (p : char -> bool) (s : str) :
  drop_while p s = s <->
  s = [] \/ exists c r, s = c :: r /\ p c = false.
Proof.
  destruct s as [|c r]; simpl; [tauto|].
  destruct (p c) eqn:Hp; split.
  - intros H; pose proof (drop_while_length p r) as Hl.
    rewrite H in Hl; simpl in Hl; lia.
  - intros [H | (c' & r' & H & Hc)]; [discriminate|].
    inversion H; subst; congruence.
  - intros _; right; eauto.
  - reflexivity.
Qed.

Lemma terminator_is_space (c : char) :
  char_in [LF; CR] c = true -> is_space c = true.
Proof.
  unfold char_in; simpl; rewrite !orb_true_iff, !N.eqb_eq.
  intros [-> | [-> | H]]; [reflexivity | reflexivity | discriminate H].
Qed.

(** The test of the Trailing Whitespace check says that the line without
    its terminators ends in white space. *)
Lemma trailing_test_iff (line : str) :
  str_eqb (rstrip_chars [LF; CR] line) (rstrip line) = false <->
  ends_in_space (rstrip_chars [LF; CR] line).
Proof.
  unfold rstrip, rstrip_chars, ends_in_space.
  rewrite <- (drop_while_weaker (char_in [LF; CR]) is_space (rev line)
                terminator_is_space).
  set (r := drop_while (char_in [LF; CR]) (rev line)).
  split.
  - intros H; destruct r as [|c r']; [discriminate H|].
    exists (rev r'), c; split; [reflexivity|].
    destruct (is_space c) eqn:Hc; [reflexivity|].
    simpl in H; rewrite Hc, str_eqb_refl in H; discriminate.
  - intros (body & c & E & Hc).
    destruct (str_eqb (rev r) (rev (drop_while is_space r))) eqn:Eq;
      [|reflexivity].
    apply str_eqb_eq in Eq.
    apply (f_equal (@rev char)) in Eq; rewrite !rev_involutive in Eq.
    symmetry in Eq; apply drop_while_fixed in Eq as [Hr | (x & r' & Hr & Hx)];
      rewrite Hr in E.
    + destruct body; discriminate.
    + simpl in E; apply app_inj_tail in E as [_ ->]; congruence.
Qed.

Lemma In_trailing_whitespace_loop (file_path : str) (lines : list str)
    (start : nat) (i : issue) :
  In i (trailing_whitespace_loop file_path (enumerate start lines)) <->
  exists n line,
    nth_error lines n = Some line
    /\ ends_in_space (rstrip_chars [LF; CR] line)
    /\ i = TrailingWhitespace file_path (start + n).
Proof.
  revert start; induction lines as [|l lines IH]; intros start;
    cbn [enumerate trailing_whitespace_loop].
  - split; [intros [] | intros ([|n] & line & H & _); discriminate].
  - rewrite in_app_iff, IH; split.
    + intros [H | (n & line & Hn & Hl & ->)].
      * destruct (str_eqb (rstrip_chars [LF; CR] l) (rstrip l)) eqn:E;
          [destruct H|].
        apply trailing_test_iff in E.
        destruct H as [<- | []]; exists 0, l; rewrite Nat.add_0_r; auto.
      * exists (S n), line; rewrite Nat.add_succ_r; auto.
    + intros ([|n] & line & Hn & Hl & ->); simpl in Hn.
      * inversion Hn; subst line; left.
        apply trailing_test_iff in Hl; rewrite Hl, Nat.add_0_r.
        left; reflexivity.
      * right; exists n, line; rewrite Nat.add_succ_r; auto.
Qed.

(** X2 -- Trailing Whitespace on a readable file: the issues are the line
    numbers, counted from 1, of the lines that end in a white-space
    character once their terminators are removed; an empty line or a line
    that ends in visible text is not reported. *)
Theorem trailing_whitespace_flags_lines_ending_in_space (file_path : str)
    (lines : list str) (i : issue) :
  In i (check_trailing_whitespace_on file_path (readable lines)) <->
  exists n line,
    nth_error lines n = Some line
    /\ ends_in_space (rstrip_chars [LF; CR] line)
    /\ i = TrailingWhitespace file_path (S n).
Proof.
  unfold check_trailing_whitespace_on; simpl; rewrite app_nil_r.
  apply In_trailing_whitespace_loop.
Qed.

(** ** Line length, further *)

Lemma line_length_loop_nil (file_path : str) (max_length : nat)
    (lines : list str) (start : nat) :
  line_length_loop file_path max_length (enumerate start lines) = [] <->
  Forall (fun l => length (rstrip_chars [LF; CR] l) <= max_length) lines.
Proof.
  revert start; induction lines as [|l lines IH]; intros start;
    cbn [enumerate line_length_loop].
  - split; auto.
  - destruct (Nat.ltb_spec max_length (length (rstrip_chars [LF; CR] l))).
    + split; [discriminate|]; intros H'; inversion H'; lia.
    + cbn [app]; rewrite IH; split; [auto | intros H'; inversion H'; auto].
Qed.

(** X3 -- Line Length passes a readable file exactly when no line, its
    terminators removed, is longer than the limit; a line of exactly the
    limit passes. *)
Theorem line_length_passes_iff_all_lines_fit (file_path : str)
    (lines : list str) (max_length : nat) :
  check_line_length_on file_path (readable lines) max_length = [] <->
  Forall (fun l => length (rstrip_chars [LF; CR] l) <= max_length) lines.
Proof.
  unfold check_line_length_on; simpl; rewrite app_nil_r.
  apply line_length_loop_nil.
Qed.

Lemma filter_length_le (A : Type) (f g : A -> bool) (l : list A) :
  (forall x, f x = true -> g x = true) ->
  length (filter f l) <= length (filter g l).
Proof.
  intros Hfg; induction l as [|x l IH]; simpl; auto.
  destruct (f x) eqn:Hf; [rewrite (Hfg _ Hf); simpl; lia|].
  destruct (g x); simpl; lia.
Qed.

(** X4 -- a larger limit never adds issues: on any file, readable or not,
    Line Length reports at most as many issues under the larger of two
    limits as under the smaller. *)
Theorem line_length_fewer_issues_under_larger_limit (file_path : str)
    (f : file) (small large : nat) :
  small <= large ->
  length (check_line_length_on file_path f large)
  <= length (check_line_length_on file_path f small).
Proof.
  intros Hle; unfold check_line_length_on.
  rewrite !length_app, !line_length_loop_length.
  apply Nat.add_le_mono_r, filter_length_le.
  intros l H; apply Nat.ltb_lt in H; apply Nat.ltb_lt; lia.
Qed.

Lemma line_length_fewer_issues_under_larger_limit_witness :
  length (check_line_length_on (lit "src/a.cpp")
            (readable [line_of_101; nl "int x;"]) 120)
  <= length (check_line_length_on (lit "src/a.cpp")
               (readable [line_of_101; nl "int x;"]) 100).
Proof.
  apply line_length_fewer_issues_under_larger_limit.
  repeat constructor.
Defined.

Lemma line_length_loop_lines (file_path : str) (max_length : nat)
    (lines : list str) (start : nat) :
  StronglySorted lt
    (map line_of (line_length_loop file_path max_length
                    (enumerate start lines)))
  /\ Forall (fun n => start <= n)
       (map line_of (line_length_loop file_path max_length
                       (enumerate start lines))).
Proof.
  revert start; induction lines as [|l lines IH]; intros start;
    cbn [enumerate line_length_loop]; [split; constructor|].
  destruct (IH (S start)) as [Hs Hf].
  assert (Hf' : Forall (fun n => start <= n)
                  (map line_of (line_length_loop file_path max_length
                                  (enumerate (S start) lines)))).
  { eapply Forall_impl; [|exact Hf]; simpl; intros; lia. }
  destruct (max_length <? length (rstrip_chars [LF; CR] l)); cbn [app map].
  - split; constructor; auto.
  - split; assumption.
Qed.

(** X5 -- Line Length reports in the order of the file: the line numbers of
    its issues on a readable file increase strictly and start at 1 or
    later. *)
Theorem line_length_issues_in_file_order (file_path : str)
    (lines : list str) (max_length : nat) :
  StronglySorted lt
    (map line_of (check_line_length_on file_path (readable lines) max_length))
  /\ Forall (fun n => 1 <= n)
       (map line_of
          (check_line_length_on file_path (readable lines) max_length)).
Proof.
  unfold check_line_length_on; simpl; rewrite app_nil_r.
  apply line_length_loop_lines.
Qed.

(** ** Namespace closing comments, further *)

Section NamespacesFurther.

Variable unicode_alnum : char -> bool.
Variable file_path : str.

Lemma namespace_loop_not_closing (line_num : nat) (line : str)
    (more : list (nat * str)) (stack : list (str * nat)) :
  is_closing_line (strip line) = false ->
  exists stack',
    namespace_loop unicode_alnum file_path ((line_num, line) :: more) stack =
    namespace_loop unicode_alnum file_path more stack'
    /\ length stack' =
       (if opens_namespace unicode_alnum line then 1 else 0) + length stack.
Proof.
  intros Hc; cbn [namespace_loop]; unfold opens_namespace.
  unfold is_closing_line in Hc; rewrite Hc.
  destruct (re_match_keyword unicode_alnum (lit "namespace") (strip line));
    eexists; split; reflexivity.
Qed.

Lemma namespace_loop_closing_empty (line_num : nat) (line : str)
    (more : list (nat * str)) :
  is_closing_line (strip line) = true ->
  namespace_loop unicode_alnum file_path ((line_num, line) :: more) [] =
  namespace_loop unicode_alnum file_path more [].
Proof.
  intros Hc; cbn [namespace_loop].
  rewrite (closing_line_opens_nothing _ _ Hc).
  unfold is_closing_line in Hc; rewrite Hc; reflexivity.
Qed.

Lemma closing_line_not_opening (line : str) :
  is_closing_line (strip line) = true ->
  opens_namespace unicode_alnum line = false.
Proof.
  intros Hc; unfold opens_namespace.
  rewrite (closing_line_opens_nothing _ _ Hc); reflexivity.
Qed.

Lemma In_namespace_loop (lines : list str) (start : nat)
    (stack : list (str * nat)) (i : issue) :
  In i (namespace_loop unicode_alnum file_path (enumerate start lines) stack)
  ->
  exists n line,
    nth_error lines n = Some line
    /\ i = MissingNamespaceComment file_path (start + n)
    /\ 10 < start + n
    /\ is_closing_line (strip line) = true
    /\ closing_comment_accepted unicode_alnum (strip line) = false.
Proof.
  revert start stack; induction lines as [|l lines IH]; intros start stack;
    cbn [enumerate]; [intros []|].
  assert (Hnext : forall stack',
    In i (namespace_loop unicode_alnum file_path
            (enumerate (S start) lines) stack') ->
    exists n line,
      nth_error (l :: lines) n = Some line
      /\ i = MissingNamespaceComment file_path (start + n)
      /\ 10 < start + n
      /\ is_closing_line (strip line) = true
      /\ closing_comment_accepted unicode_alnum (strip line) = false).
  { intros stack' H; destruct (IH _ _ H) as (n & line & Hn & -> & H').
    exists (S n), line; rewrite Nat.add_succ_r; auto. }
  destruct (is_closing_line (strip l)) eqn:Hc.
  - destruct stack as [|top stack].
    + rewrite namespace_loop_closing_empty by exact Hc; apply Hnext.
    + rewrite namespace_loop_closing by exact Hc.
      rewrite in_app_iff; intros [H | H]; [|exact (Hnext _ H)].
      destruct (closing_comment_accepted unicode_alnum (strip l)) eqn:Ha;
        [destruct H|]; cbn [negb andb] in H.
      destruct (Nat.ltb_spec 10 start); [|destruct H].
      destruct H as [<- | []]; exists 0, l; rewrite Nat.add_0_r; auto.
  - destruct (namespace_loop_not_closing start l (enumerate (S start) lines)
                stack Hc) as (stack' & -> & _).
    apply Hnext.
Qed.

Lemma namespace_loop_length (lines : list str) (start : nat)
    (stack : list (str * nat)) :
  length (namespace_loop unicode_alnum file_path (enumerate start lines)
            stack)
  <= length stack + length (filter (opens_namespace unicode_alnum) lines).
Proof.
  revert start stack; induction lines as [|l lines IH]; intros start stack;
    cbn [enumerate filter]; [simpl; lia|].
  destruct (is_closing_line (strip l)) eqn:Hc.
  - rewrite (closing_line_not_opening _ Hc).
    destruct stack as [|top stack].
    + rewrite namespace_loop_closing_empty by exact Hc; apply IH.
    + rewrite namespace_loop_closing by exact Hc.
      rewrite length_app; specialize (IH (S start) stack).
      destruct (negb (closing_comment_accepted unicode_alnum (strip l))
                && (10 <? start)); simpl; lia.
  - destruct (namespace_loop_not_closing start l (enumerate (S start) lines)
                stack Hc) as (stack' & -> & Hlen).
    specialize (IH (S start) stack').
    destruct (opens_namespace unicode_alnum l); simpl in *; lia.
Qed.

End NamespacesFurther.

(** X6 -- every issue of the Namespace check on a readable file points at a
    line after line 10 that closes a block and carries no accepted comment;
    in particular nothing in the first ten lines is ever reported. *)
Theorem namespace_issue_is_uncommented_late_closing_line
    (unicode_alnum : char -> bool) (file_path : str) (lines : list str)
    (i : issue) :
  In i (check_namespace_comments_on unicode_alnum file_path (readable lines))
  ->
  exists n line,
    nth_error lines n = Some line
    /\ i = MissingNamespaceComment file_path (S n)
    /\ 10 < S n
    /\ is_closing_line (strip line) = true
    /\ closing_comment_accepted unicode_alnum (strip line) = false.
Proof.
  unfold check_namespace_comments_on; simpl.
  apply In_namespace_loop.
Qed.

Lemma namespace_issue_is_uncommented_late_closing_line_witness :
  (forall unicode_alnum,
     exists n line,
       nth_error short_namespace_late n = Some line
       /\ MissingNamespaceComment (lit "src/a.cpp") 12
          = MissingNamespaceComment (lit "src/a.cpp") (S n)
       /\ 10 < S n
       /\ is_closing_line (strip line) = true
       /\ closing_comment_accepted unicode_alnum (strip line) = false)
  /\ length short_namespace_late = 12.
Proof.
  split; [|reflexivity].
  intros unicode_alnum.
  apply (@namespace_issue_is_uncommented_late_closing_line unicode_alnum
           (lit "src/a.cpp") short_namespace_late).
  left; reflexivity.
Defined.

(** X7 -- the Namespace check never reports more issues on a readable file
    than the file has lines that open a namespace: a closing line met while
    no namespace is open is passed over. *)
Theorem namespace_issues_bounded_by_openings
    (unicode_alnum : char -> bool) (file_path : str) (lines : list str) :
  length (check_namespace_comments_on unicode_alnum file_path
            (readable lines))
  <= length (filter (opens_namespace unicode_alnum) lines).
Proof.
  unfold check_namespace_comments_on; simpl.
  exact (namespace_loop_length unicode_alnum file_path lines 1 []).
Qed.

(** ** Indentation, further *)

(** X8 -- Indentation reports at most one issue for a file, readable or
    not. *)
Theorem indentation_at_most_one_issue (unicode_alnum : char -> bool)
    (file_path : str) (f : file) :
  length (check_indentation_on unicode_alnum file_path f) <= 1.
Proof.
  unfold check_indentation_on; rewrite indentation_loop_first.
  destruct (first_index _ (delivered f)); [simpl; lia|].
  destruct (failure f); simpl; lia.
Qed.

Lemma first_index_None (A : Type) (test : A -> bool) (xs : list A) :
  first_index test xs = None <-> Forall (fun x => test x = false) xs.
Proof.
  induction xs as [|x xs IH]; simpl; [split; auto|].
  destruct (test x) eqn:E.
  - split; [discriminate | intros H; inversion H; congruence].
  - destruct (first_index test xs).
    + split; [discriminate|]; intros H; inversion H; subst.
      apply IH in H3; discriminate.
    + split; [intros _; constructor; [exact E | apply IH; reflexivity]|].
      reflexivity.
Qed.

(** X9 -- Indentation passes a readable file exactly when none of its lines
    is both misindented and of words only; blank lines, lines indented by
    a multiple of 4 and lines that hold punctuation never count. *)
Theorem indentation_passes_iff_no_plain_misindented_line
    (unicode_alnum : char -> bool) (file_path : str) (lines : list str) :
  check_indentation_on unicode_alnum file_path (readable lines) = [] <->
  Forall (fun l => misindented l && words_only unicode_alnum l = false)
         lines.
Proof.
  unfold check_indentation_on; simpl; rewrite indentation_loop_first.
  rewrite <- first_index_None.
  destruct (first_index _ lines); simpl; split; congruence.
Qed.

(** ** Empty files and directories *)

(** X10 -- an empty readable file passes every check, except that under a
    header name it is reported once by Include Guards. *)
Theorem empty_file_passes_all_but_guards (unicode_alnum : char -> bool)
    (file_path : str) (max_length : nat) :
  check_line_length_on file_path (readable []) max_length = []
  /\ check_trailing_whitespace_on file_path (readable []) = []
  /\ check_tabs_on file_path (readable []) = []
  /\ check_namespace_comments_on unicode_alnum file_path (readable []) = []
  /\ check_indentation_on unicode_alnum file_path (readable []) = []
  /\ check_include_guards_on unicode_alnum file_path (readable []) =
     (if is_header file_path then [MissingIncludeGuards file_path] else []).
Proof.
  repeat split; unfold check_include_guards_on.
  destruct (is_header file_path); reflexivity.
Qed.

Lemma open_directory (cwd : tree) (file_path : str)
    (es : list (str * node)) :
  walk cwd (split_on SLASH file_path) = Some (Dir es) ->
  open_ cwd file_path = failing [] (IsADirectoryError file_path).
Proof. intros H; unfold open_; rewrite H; reflexivity. Qed.

(** X11 -- a path that names a directory costs one read-failure issue in
    each check that opens it: five in a run, six under a header name, all
    of them the same issue. *)
Theorem directory_costs_one_issue_per_reading_check
    (unicode_alnum : char -> bool) (cwd : tree) (file_path : str)
    (es : list (str * node)) :
  walk cwd (split_on SLASH file_path) = Some (Dir es) ->
  flat_map (fun c => snd c cwd file_path) (checks unicode_alnum) =
  repeat (ErrorReadingFile file_path (IsADirectoryError file_path))
         (if is_header file_path then 6 else 5).
Proof.
  intros H; unfold checks; cbn [flat_map snd].
  unfold check_line_length, check_trailing_whitespace, check_tabs,
    check_include_guards, check_namespace_comments, check_indentation.
  rewrite (open_directory _ _ H).
  unfold check_include_guards_on.
  destruct (is_header file_path); reflexivity.
Qed.

Lemma directory_costs_one_issue_per_reading_check_witness :
  (forall unicode_alnum,
     flat_map (fun c => snd c directory_tree (lit "src/x.cpp"))
       (checks unicode_alnum) =
     repeat (ErrorReadingFile (lit "src/x.cpp")
               (IsADirectoryError (lit "src/x.cpp"))) 5)
  /\ is_header (lit "src/x.cpp") = false.
Proof.
  split; [|reflexivity].
  intros unicode_alnum.
  apply (@directory_costs_one_issue_per_reading_check unicode_alnum
           directory_tree (lit "src/x.cpp") []).
  reflexivity.
Defined.

(** ** Discovery, further *)

Lemma insert_sorted_Permutation (x : str) (l : list str) :
  Permutation (insert_sorted x l) (x :: l).
Proof.
  induction l as [|y l IH]; simpl; [reflexivity|].
  destruct (str_leb x y); [reflexivity|].
  rewrite IH; apply perm_swap.
Qed.

Lemma sorted_Permutation (l : list str) : Permutation (sorted l) l.
Proof.
  induction l as [|x l IH]; simpl; [constructor|].
  rewrite insert_sorted_Permutation; constructor; exact IH.
Qed.

(** X12 -- sorting neither drops nor repeats a path: the result of
    discovery is a rearrangement of the paths collected under the four
    roots. *)
Theorem discovery_keeps_every_collected_path (cwd : tree) :
  Permutation (find_cpp_files cwd) (flat_map (found_under cwd) roots).
Proof. apply sorted_Permutation. Qed.

Lemma str_le_antisym (a b : str) : str_le a b -> str_le b a -> a = b.
Proof.
  unfold str_le; revert b; induction a as [|x a IH]; intros [|y b]; simpl;
    auto; try discriminate.
  rewrite !orb_true_iff, !andb_true_iff, !N.ltb_lt, !N.eqb_eq.
  intros [H1 | [H1 H1']] [H2 | [H2 H2']]; subst; try lia.
  f_equal; apply IH; assumption.
Qed.

Lemma str_le_refl (a : str) : str_le a a.
Proof.
  unfold str_le; induction a as [|x a IH]; simpl; auto.
  rewrite N.eqb_refl, IH, orb_true_r; reflexivity.
Qed.

Lemma StronglySorted_unique (l1 l2 : list str) :
  StronglySorted str_le l1 -> StronglySorted str_le l2 ->
  Permutation l1 l2 -> l1 = l2.
Proof.
  revert l2; induction l1 as [|a l1 IH]; intros l2 H1 H2 Hp.
  - apply Permutation_nil in Hp; auto.
  - destruct l2 as [|b l2];
      [apply Permutation_sym, Permutation_nil in Hp; discriminate|].
    apply StronglySorted_inv in H1 as [H1 Ha].
    apply StronglySorted_inv in H2 as [H2 Hb].
    rewrite Forall_forall in Ha, Hb.
    assert (Hab : str_le a b).
    { assert (Hin : In b (a :: l1))
        by (eapply Permutation_in; [symmetry; exact Hp | left; reflexivity]).
      destruct Hin as [<- | Hin]; [apply str_le_refl | auto]. }
    assert (Hba : str_le b a).
    { assert (Hin : In a (b :: l2))
        by (eapply Permutation_in; [exact Hp | left; reflexivity]).
      destruct Hin as [<- | Hin]; [apply str_le_refl | auto]. }
    assert (E : a = b) by (apply str_le_antisym; assumption); subst b.
    f_equal; apply IH; auto.
    eapply Permutation_cons_inv; exact Hp.
Qed.

Lemma Permutation_filter_same (A : Type) (f : A -> bool) (l l' : list A) :
  Permutation l l' -> Permutation (filter f l) (filter f l').
Proof.
  induction 1 as [|x l l' _ IH|x y l|l l' l'' _ IH1 _ IH2]; simpl.
  - constructor.
  - destruct (f x); [constructor|]; exact IH.
  - destruct (f x), (f y); try reflexivity; apply perm_swap.
  - etransitivity; eassumption.
Qed.

Lemma Permutation_flat_map_pointwise (A B : Type) (f g : A -> list B)
    (l : list A) :
  (forall x, In x l -> Permutation (f x) (g x)) ->
  Permutation (flat_map f l) (flat_map g l).
Proof.
  induction l as [|a l IH]; simpl; intros H; [constructor|].
  apply Permutation_app; [apply H; left; reflexivity|].
  apply IH; intros x Hx; apply H; right; exact Hx.
Qed.

(** What [rglob] yields below a tree and below a reordering of it differs
    in order only. *)
Lemma rglob_reordered (n : node) :
  forall n' self, reordered n n' -> Permutation (rglob self n) (rglob self n').
Proof.
  induction n as [f|es IH] using node_nested_ind; intros n' self Hr;
    inversion Hr as [|? middle es' Hsame Hperm]; subst; [reflexivity|].
  rewrite !rglob_Dir.
  transitivity
    (map (fun e => self ++ [fst e]) middle
     ++ flat_map (fun e => rglob (self ++ [fst e]) (snd e)) middle).
  - clear Hr Hperm; induction Hsame as [|e e' es middle [Hn Hc] _ IHs];
      [reflexivity|].
    inversion IH as [|? ? He IH']; subst; cbn [map flat_map app].
    rewrite Hn; constructor.
    specialize (IHs IH').
    eapply Permutation_trans; [apply Permutation_app_swap_app|].
    eapply Permutation_trans; [|apply Permutation_app_swap_app].
    apply Permutation_app; [apply He; exact Hc | exact IHs].
  - apply Permutation_app;
      [apply Permutation_map | apply Permutation_flat_map]; exact Hperm.
Qed.

(** X13 -- the result of discovery does not depend on the order in which
    the directories list their entries: when each root is missing in both
    of two trees, or names in the one a reordering of what it names in the
    other, discovery returns the same sequence for both. *)
Theorem discovery_independent_of_listing_order (cwd cwd' : tree) :
  (forall root,
     In root roots ->
     match entry root cwd, entry root cwd' with
     | Some n, Some n' => reordered n n'
     | None, None => True
     | _, _ => False
     end) ->
  find_cpp_files cwd = find_cpp_files cwd'.
Proof.
  intros Hroots; apply StronglySorted_unique; try apply sorted_StronglySorted.
  unfold find_cpp_files; rewrite !sorted_Permutation.
  apply Permutation_flat_map_pointwise; intros root Hr.
  specialize (Hroots root Hr); unfold found_under.
  destruct (entry root cwd) as [n|], (entry root cwd') as [n'|];
    try contradiction; [|constructor].
  apply Permutation_map, Permutation_filter_same, rglob_reordered.
  exact Hroots.
Qed.

(** Two files below [src], listed in either order. *)
Lemma discovery_independent_of_listing_order_witness :
  find_cpp_files
    [(lit "src", Dir [(lit "b.cpp", File (readable []));
                      (lit "a.cpp", File (readable []))])]
  = find_cpp_files
      [(lit "src", Dir [(lit "a.cpp", File (readable []));
                        (lit "b.cpp", File (readable []))])].
Proof.
  apply discovery_independent_of_listing_order.
  intros root [<- | [<- | [<- | [<- | []]]]]; cbn; try exact I.
  eapply reordered_dir; [|apply perm_swap].
  repeat constructor.
Defined.

Lemma below_nonempty (es : list (str * node)) (rel : list str) (n : node) :
  below es rel n -> rel <> [].
Proof. destruct 1; discriminate. Qed.

(** X14 -- every discovered path lies under one of the four roots: it is
    the root's name, a slash, and a relative path; nothing outside [src],
    [include], [examples] and [tests], and no root itself, is returned. *)
Theorem discovered_paths_lie_under_a_root (cwd : tree) (p : str) :
  In p (find_cpp_files cwd) ->
  exists root rest,
    In root [lit "src"; lit "include"; lit "examples"; lit "tests"]
    /\ p = root ++ SLASH :: rest.
Proof.
  intros Hp; apply In_find_cpp_files in Hp
    as (root & es & rel & n & Hr & _ & Hb & _ & ->).
  apply below_nonempty in Hb.
  destruct rel as [|x rel]; [congruence|].
  exists root, (join SLASH (x :: rel)); split; [exact Hr | reflexivity].
Qed.

Lemma discovered_paths_lie_under_a_root_witness :
  exists root rest,
    In root [lit "src"; lit "include"; lit "examples"; lit "tests"]
    /\ lit "include/a.hpp" = root ++ SLASH :: rest.
Proof.
  apply (@discovered_paths_lie_under_a_root five_suffixes_tree).
  right; left; reflexivity.
Defined.

(** ** The driver, further *)

Lemma flat_map_nil (A B : Type) (f : A -> list B) (l : list A) :
  flat_map f l = [] <-> forall x, In x l -> f x = [].
Proof.
  induction l as [|a l IH]; simpl; [split; [intros _ x [] | reflexivity]|].
  split.
  - intros H; apply app_eq_nil in H as [Ha Hl].
    intros x [<- | Hx]; [exact Ha | exact (proj1 IH Hl x Hx)].
  - intros H; rewrite (H a (or_introl eq_refl)).
    apply IH; intros x Hx; apply H; right; exact Hx.
Qed.

(** X16 -- the run exits with 0 exactly when at least one file was
    discovered and each of the six checks is silent on every discovered
    file. *)
Theorem main_exits_0_iff_all_checks_silent (unicode_alnum : char -> bool)
    (cwd : tree) :
  main unicode_alnum cwd = 0 <->
  find_cpp_files cwd <> []
  /\ (forall c file_path,
        In c (checks unicode_alnum) -> In file_path (find_cpp_files cwd) ->
        snd c cwd file_path = []).
Proof.
  unfold main.
  destruct (find_cpp_files cwd) as [|p files] eqn:E.
  - split; [discriminate | intros [H _]; congruence].
  - destruct (all_issues unicode_alnum cwd (p :: files)) as [|i found] eqn:Ea.
    + split; [|reflexivity]; intros _; split; [discriminate|].
      intros c q Hc Hq; unfold all_issues, check_issues in Ea.
      exact (proj1 (flat_map_nil _ _)
               (proj1 (flat_map_nil _ _) Ea c Hc) q Hq).
    + split; [simpl; destruct (length found) as [|[|[|[|[|[|[|[|[|k]]]]]]]]];
              discriminate|].
      intros [_ H]; exfalso.
      assert (Hn : all_issues unicode_alnum cwd (p :: files) = []).
      { unfold all_issues, check_issues; apply flat_map_nil; intros c Hc.
        apply flat_map_nil; intros q Hq; apply H; assumption. }
      congruence.
Qed.

(** ** Terminal output *)

Lemma dict_get_missing (key : str) (d : list (str * str)) (default : str) :
  (forall k v, In (k, v) d -> k <> key) -> dict_get key d default = default.
Proof.
  induction d as [|[k v] d IH]; simpl; [reflexivity|]; intros H.
  destruct (str_eqb k key) eqn:E.
  - apply str_eqb_eq in E; exfalso; exact (H k v (or_introl eq_refl) E).
  - apply IH; intros k' v' Hin; apply (H k' v'); right; exact Hin.
Qed.

(** X17 -- a colour name that the table does not hold is no error: the
    message is printed without a colour code in front, and the reset code
    follows it as for every message. *)
Theorem print_colored_unknown_colour (message color : str) :
  (forall k v, In (k, v) colors -> k <> color) ->
  print_colored message color = message ++ ESC :: lit "[0m".
Proof.
  intros H; unfold print_colored.
  rewrite (dict_get_missing _ _ H); reflexivity.
Qed.

Lemma print_colored_unknown_colour_witness :
  print_colored (lit "done") (lit "purple") = lit "done" ++ ESC :: lit "[0m".
Proof.
  apply print_colored_unknown_colour.
  intros k v [H | [H | [H | [H | [H | []]]]]]; inversion H; discriminate.
Defined.

(** ** Attribution *)

Lemma on_failure_path (file_path : str) (failed : option exn) (i : issue) :
  In i (on_failure file_path failed) -> path_of i = file_path.
Proof.
  destruct failed; simpl; [intros [<- | []]; reflexivity | intros []].
Qed.

(** X18 -- every issue names the file it was found in: whatever check of
    the run reports it, on a readable file or not, its message starts with
    the path the check was called with. *)
Theorem issues_name_their_file (unicode_alnum : char -> bool) (cwd : tree)
    (c : string * (tree -> str -> list issue)) (file_path : str)
    (i : issue) :
  In c (checks unicode_alnum) -> In i (snd c cwd file_path) ->
  path_of i = file_path.
Proof.
  unfold checks; intros Hc.
  repeat (destruct Hc as [<- | Hc]); [ | | | | | | destruct Hc];
    cbn [snd].
  - unfold check_line_length, check_line_length_on; rewrite in_app_iff.
    intros [H | H]; [|exact (on_failure_path _ _ _ H)].
    apply In_line_length_loop in H as (n & line & _ & _ & ->); reflexivity.
  - unfold check_trailing_whitespace, check_trailing_whitespace_on.
    rewrite in_app_iff; intros [H | H]; [|exact (on_failure_path _ _ _ H)].
    apply In_trailing_whitespace_loop in H as (n & line & _ & _ & ->).
    reflexivity.
  - unfold check_tabs, check_tabs_on.
    destruct (failure (open_ cwd file_path)); [intros [<- | []]; reflexivity|].
    destruct (contains [TAB] _); [intros [<- | []]; reflexivity | intros []].
  - unfold check_include_guards, check_include_guards_on.
    destruct (negb (is_header file_path)); [intros []|].
    destruct (failure (open_ cwd file_path)); [intros [<- | []]; reflexivity|].
    cbv zeta; destruct (contains (lit "#pragma once") _); [intros []|].
    destruct (negb _); [intros [<- | []]; reflexivity | intros []].
  - unfold check_namespace_comments, check_namespace_comments_on.
    destruct (failure (open_ cwd file_path)); [intros [<- | []]; reflexivity|].
    intros H; apply In_namespace_loop in H as (n & line & _ & -> & _).
    reflexivity.
  - unfold check_indentation, check_indentation_on.
    rewrite indentation_loop_first.
    destruct (first_index _ _); [intros [<- | []]; reflexivity|].
    apply on_failure_path.
Qed.

Lemma issues_name_their_file_witness :
  path_of (ContainsTabs (lit "src/a.cpp")) = lit "src/a.cpp"
  /\ find_cpp_files one_tab_tree = [lit "src/a.cpp"].
Proof.
  split; [|reflexivity].
  apply (@issues_name_their_file (fun _ => false) one_tab_tree
           ("Tab characters"%string, check_tabs) (lit "src/a.cpp")).
  - right; right; left; reflexivity.
  - left; reflexivity.
Defined.
